(** * go-dash-wasi-reactor: the wazero host bridge of the dash WASI reactor

    A shallow embedding of package [dash] (the [Dash] wrapper with its
    marshalling helpers, and the [__setjmp] / [__longjmp] host imports), with
    the properties of its specification stated over it.

    Conventions.
    - Go's fixed-width integers are [Z] with the conversions written out
      ([uint32], [uint64], [int32]).
    - A Go [string] and a [[]byte] are [list byte]; [string(buf)] and
      [[]byte(s)] are the identity on them.
    - Guest linear memory is the list of its bytes; the accessors follow the
      contract of wazero's [api.Memory]: an access that does not fit in the
      current memory size reports [false] and changes nothing.
    - The guest's exported functions are opaque: an [Engine] instance gives
      what a call to an export does to the module instance and to the
      checkpoint table (the guest reaches the table through the host
      imports), and what it returns.
    - Every call the wrapper's methods make into the engine is appended to
      a trace, so that statements about allocation and release can count
      calls. *)

From Stdlib Require Import ZArith List Lia Bool String Permutation.
From coqutil Require Import Byte Word.LittleEndianList.
Import ListNotations.
Local Open Scope Z_scope.

(** ** Integer conversions *)

Definition uint32 (z : Z) : Z := z mod 2 ^ 32.
Definition uint64 (z : Z) : Z := z mod 2 ^ 64.

(** [int32(x)] of an unsigned value: two's complement reading of the low 32 bits. *)
Definition int32 (z : Z) : Z :=
  let u := uint32 z in if u <? 2 ^ 31 then u else u - 2 ^ 32.

(** A Go string, as its bytes. *)
Definition gostring : Type := list byte.

(** [len(s)] *)
Definition len {A : Type} (l : list A) : Z := Z.of_nat (List.length l).

(** [l[i] = x] on a slice, for an index in range. *)
Fixpoint upd {A : Type} (l : list A) (i : nat) (x : A) : list A :=
  match l, i with
  | [], _ => []
  | _ :: t, O => x :: t
  | h :: t, S j => h :: upd t j x
  end.

(** ** Guest linear memory (wazero [api.Memory])

    Offsets and byte counts are [uint32] values, so they are never
    negative; every caller below passes the result of [uint32] or an
    address it received as a [uint32] parameter. *)

Module Memory.

Definition t : Type := list byte.

Definition Size (m : t) : Z := len m.

(** The bounds check every accessor starts with. *)
Definition hasSize (m : t) (offset byteCount : Z) : bool :=
  offset + byteCount <=? Size m.

Definition ReadByte (m : t) (offset : Z) : option byte :=
  if hasSize m offset 1 then nth_error m (Z.to_nat offset) else None.

Definition Read (m : t) (offset byteCount : Z) : option (list byte) :=
  if hasSize m offset byteCount
  then Some (firstn (Z.to_nat byteCount) (skipn (Z.to_nat offset) m))
  else None.

Definition Write (m : t) (offset : Z) (v : list byte) : t * bool :=
  if hasSize m offset (len v)
  then (firstn (Z.to_nat offset) m ++ v
          ++ skipn (Z.to_nat offset + List.length v) m, true)
  else (m, false).

Definition WriteUint32Le (m : t) (offset v : Z) : t * bool :=
  Write m offset (le_split 4 v).

Definition WriteUint64Le (m : t) (offset v : Z) : t * bool :=
  Write m offset (le_split 8 v).

Definition ReadUint64Le (m : t) (offset : Z) : Z * bool :=
  match Read m offset 8 with
  | Some bs => (le_combine bs, true)
  | None => (0, false)
  end.

End Memory.

(** ** readCString

    [for i := uint32(0); ; i++ { b, ok := mem.ReadByte(ptr + i); ... }].
    The loop has no bound of its own (on a full 4 GiB memory without a zero
    byte the address wraps around and the scan goes on), so the embedding
    takes fuel; [None] is "still scanning". *)

Fixpoint readCString_loop (fuel : nat) (mem : Memory.t) (ptr i : Z)
    (buf : list byte) : option gostring :=
  match fuel with
  | O => None
  | S fuel' =>
      match Memory.ReadByte mem (uint32 (ptr + i)) with
      | None => Some buf
      | Some b =>
          if Byte.eqb b Byte.x00 then Some buf
          else readCString_loop fuel' mem ptr (uint32 (i + 1)) (buf ++ [b])
      end
  end.

Definition readCString (fuel : nat) (mem : Memory.t) (ptr : Z) : option gostring :=
  readCString_loop fuel mem ptr 0 [].

(** ** The engine: exports, call results, module instance *)

(** The exports the wrapper resolves ([ExportMalloc], [ExportFree],
    [ExportDashInit], ...). *)
Inductive Export : Type :=
| ExportMalloc
| ExportFree
| ExportDashInit
| ExportDashEval
| ExportDashGetExitStatus
| ExportDashGetVar
| ExportDashSetVar
| ExportDashDestroy.

(** [results, err := f.Call(ctx, params...)]. Each export has at most one
    result, so a successful call is modelled by [results[0]]; exports
    without a result ([free], [dash_destroy]) leave it unused. *)
Inductive CallResult : Type :=
| CallErr (err : string)
| CallOk (result0 : Z).

(** What the host asks of the engine, in order. *)
Inductive Event : Type :=
| EvCall (f : Export) (params : list Z) (res : CallResult)
| EvModClose.

(** How a host import hands control back to the engine: it returns to the
    guest caller, it calls [Snapshot.Restore] (which resumes the capture
    site with the given results and does not come back), or the Go runtime
    panics. *)
Inductive Control (Snapshot : Type) : Type :=
| Returns (result : Z)
| Restores (snap : Snapshot) (ret : list Z)
| Panics (msg : string).
Arguments Returns {Snapshot} result.
Arguments Restores {Snapshot} snap ret.
Arguments Panics {Snapshot} msg.

Section Types.
Context {Snapshot Guest : Type}.

(** [type checkpoint struct] *)
Record checkpoint : Type := mkCheckpoint {
  snapshot : Snapshot;
  stackPointer : Z;
  cstack : list byte
}.

(** [type dashState struct] *)
Record dashState : Type := mkDashState {
  checkpoints : list checkpoint
}.

(** The instantiated module ([api.Module]): its memory, the two exported
    globals the imports use, and whatever else the guest keeps. *)
Record ModuleInst : Type := mkModuleInst {
  memory : Memory.t;
  stack_pointer : Z;   (* ExportedGlobal("__stack_pointer").Get() *)
  heap_base : Z;       (* ExportedGlobal("__heap_base").Get() *)
  guest : Guest
}.

(** All a guest call can change: the instance, and (through the imports)
    the checkpoint table. *)
Record Store : Type := mkStore {
  inst : ModuleInst;
  state : dashState
}.

Record World : Type := mkWorld {
  store : Store;
  trace : list Event
}.

End Types.
Arguments checkpoint : clear implicits.
Arguments dashState : clear implicits.
Arguments ModuleInst : clear implicits.
Arguments Store : clear implicits.
Arguments World : clear implicits.

(** The engine's side of the interfaces [api.Function], [api.Module] and
    [experimental.Snapshotter]. *)
Class Engine (Snapshot Guest : Type) : Type := {
  (** [f.Call(ctx, params...)] on an export *)
  guest_call : Export -> list Z -> Store Snapshot Guest -> Store Snapshot Guest * CallResult;
  (** [mod.Close(ctx)]: releases the instance, and answers an error or nil *)
  mod_close : ModuleInst Guest -> ModuleInst Guest * option string;
  (** [experimental.GetSnapshotter(ctx).Snapshot()] *)
  take_snapshot : ModuleInst Guest -> Snapshot
}.

(** [type Dash struct]: the handles of the optional exports are recorded by
    whether they are non-nil; the required ones are non-nil after
    [newDashFromCompiled]. *)
Record Dash : Type := mkDash {
  dashGetExitStatus : bool;
  dashGetVar : bool;
  dashSetVar : bool;
  initialized : bool
}.

(** The [&Dash{...}] built by [newDashFromCompiled], given which optional
    exports the module has; [initialized] is left at its zero value. *)
Definition newDash (getExitStatus getVar setVar : bool) : Dash :=
  {| dashGetExitStatus := getExitStatus;
     dashGetVar := getVar;
     dashSetVar := setVar;
     initialized := false |}.

Definition set_initialized (d : Dash) (b : bool) : Dash :=
  {| dashGetExitStatus := dashGetExitStatus d;
     dashGetVar := dashGetVar d;
     dashSetVar := dashSetVar d;
     initialized := b |}.

(** What [Init] returns once the guest's [dash_init] has answered. *)
Definition Init_verdict (d : Dash) (res : CallResult) : option string * Dash :=
  match res with
  | CallErr err => (Some (String.append "dash_init failed: " err), d)
  | CallOk r0 =>
      if negb (int32 r0 =? 0) then (Some "dash_init returned error"%string, d)
      else (None, set_initialized d true)
  end.

(** [[]string{"dash"}] *)
Definition default_args : list gostring :=
  [[Byte.x64; Byte.x61; Byte.x73; Byte.x68]].


(** ** The wrapper's operations *)

Section Operations.
Context {Snapshot Guest : Type} {E : Engine Snapshot Guest}.

Local Abbreviation Store := (Store Snapshot Guest).
Local Abbreviation World := (World Snapshot Guest).

(** State passing over the world: the methods thread the module instance,
    the checkpoint table and the call trace. *)
Definition M (A : Type) : Type := World -> A * World.

Definition ret {A : Type} (a : A) : M A := fun w => (a, w).

Definition bind {A B : Type} (m : M A) (k : A -> M B) : M B :=
  fun w => let (a, w') := m w in k a w'.

Notation "x <- m ;; k" := (bind m (fun x => k))
  (at level 61, m at next level, right associativity).
Notation "m ;;; k" := (bind m (fun _ => k))
  (at level 61, right associativity).

(** [f.Call(ctx, params...)], recorded in the trace. *)
Definition Call (f : Export) (params : list Z) : M CallResult :=
  fun w =>
    let (s', r) := guest_call f params (store w) in
    (r, {| store := s'; trace := trace w ++ [EvCall f params r] |}).

(** [d.mod.Close(ctx)], recorded in the trace. *)
Definition ModClose : M (option string) :=
  fun w =>
    let (i', e) := mod_close (inst (store w)) in
    (e, {| store := {| inst := i'; state := state (store w) |};
           trace := trace w ++ [EvModClose] |}).

Definition set_memory (s : Store) (m : Memory.t) : Store :=
  {| inst := {| memory := m;
                stack_pointer := stack_pointer (inst s);
                heap_base := heap_base (inst s);
                guest := guest (inst s) |};
     state := state s |}.

Definition set_stack_pointer (s : Store) (v : Z) : Store :=
  {| inst := {| memory := memory (inst s);
                stack_pointer := v;
                heap_base := heap_base (inst s);
                guest := guest (inst s) |};
     state := state s |}.

(** [d.mod.Memory().Write(offset, v)] *)
Definition MemWrite (offset : Z) (v : list byte) : M bool :=
  fun w =>
    let (m', ok) := Memory.Write (memory (inst (store w))) offset v in
    (ok, {| store := set_memory (store w) m'; trace := trace w |}).

(** [d.mod.Memory().WriteUint32Le(offset, v)] *)
Definition MemWriteUint32Le (offset v : Z) : M bool :=
  fun w =>
    let (m', ok) := Memory.WriteUint32Le (memory (inst (store w))) offset v in
    (ok, {| store := set_memory (store w) m'; trace := trace w |}).

(** [func (d *Dash) allocString(ctx, s) (uint32, error)] *)
Definition allocString (s : gostring) : M (Z * option string) :=
  let b := s in
  r <- Call ExportMalloc [uint64 (len b + 1)] ;;
  match r with
  | CallErr err => ret (0, Some err)
  | CallOk result0 =>
      let ptr := uint32 result0 in
      if ptr =? 0 then ret (0, Some "malloc returned null"%string)
      else
        ok <- MemWrite ptr (b ++ [Byte.x00]) ;;
        if negb ok then
          Call ExportFree [uint64 ptr] ;;;
          ret (0, Some "failed to write string to memory"%string)
        else ret (ptr, None)
  end.

(** [func (d *Dash) freePtr(ctx, ptr)] *)
Definition freePtr (ptr : Z) : M unit :=
  if negb (ptr =? 0) then Call ExportFree [uint64 ptr] ;;; ret tt
  else ret tt.

(** [for _, ptr := range ptrs { d.freePtr(ctx, ptr) }] *)
Fixpoint freePtrs (ptrs : list Z) : M unit :=
  match ptrs with
  | [] => ret tt
  | ptr :: rest => freePtr ptr ;;; freePtrs rest
  end.

(** The marshalling loop of [Init], from index [i] on: [args] are the
    arguments still to allocate, [ptrs] the slice made by
    [make([]uint32, argc)] as filled so far. On a failure the pointers
    [ptrs[0..i)] are released and the error is returned. *)
Fixpoint Init_allocArgs (args : list gostring) (i : nat) (ptrs : list Z)
    : M (option string * list Z) :=
  match args with
  | [] => ret (None, ptrs)
  | arg :: rest =>
      r <- allocString arg ;;
      match snd r with
      | Some err => freePtrs (firstn i ptrs) ;;; ret (Some err, ptrs)
      | None => Init_allocArgs rest (S i) (upd ptrs i (fst r))
      end
  end.

(** [for i, ptr := range ptrs { WriteUint32Le(argv+uint32(i*4), ptr) }] *)
Fixpoint Init_writeArgv (argv : Z) (i : nat) (ptrs : list Z) : M unit :=
  match ptrs with
  | [] => ret tt
  | ptr :: rest =>
      MemWriteUint32Le (uint32 (argv + uint32 (Z.of_nat i * 4))) ptr ;;;
      Init_writeArgv argv (S i) rest
  end.

(** [func (d *Dash) Init(ctx, args []string) error] *)
Definition Init (d : Dash) (args : list gostring) : M (option string * Dash) :=
  if initialized d then ret (Some "dash already initialized"%string, d)
  else
    let args := if len args =? 0 then default_args else args in
    let argc := len args in
    let ptrs := repeat 0 (List.length args) in
    a <- Init_allocArgs args 0 ptrs ;;
    match fst a with
    | Some err => ret (Some err, d)
    | None =>
        let ptrs := snd a in
        r <- Call ExportMalloc [uint64 (argc * 4)] ;;
        match r with
        | CallErr err => freePtrs ptrs ;;; ret (Some err, d)
        | CallOk result0 =>
            let argv := uint32 result0 in
            if argv =? 0 then
              freePtrs ptrs ;;;
              ret (Some "malloc returned null for argv"%string, d)
            else
              Init_writeArgv argv 0 ptrs ;;;
              initResults <- Call ExportDashInit [uint64 argc; uint64 argv] ;;
              freePtr argv ;;;
              freePtrs ptrs ;;;
              match initResults with
              | CallErr err =>
                  ret (Some (String.append "dash_init failed: " err), d)
              | CallOk r0 =>
                  if negb (int32 r0 =? 0)
                  then ret (Some "dash_init returned error"%string, d)
                  else ret (None, set_initialized d true)
              end
        end
    end.

(** [func (d *Dash) Eval(ctx, cmd string) (int, error)]; the deferred
    [freePtr] runs on every return after the allocation. *)
Definition Eval (d : Dash) (cmd : gostring) : M (Z * option string) :=
  if negb (initialized d) then ret (-1, Some "dash not initialized"%string)
  else
    a <- allocString cmd ;;
    let cmdPtr := fst a in
    match snd a with
    | Some err => ret (-1, Some err)
    | None =>
        r <- Call ExportDashEval [uint64 cmdPtr; uint64 (len cmd)] ;;
        match r with
        | CallErr err =>
            freePtr cmdPtr ;;;
            ret (-1, Some (String.append "dash_eval failed: " err))
        | CallOk result0 =>
            freePtr cmdPtr ;;;
            ret (int32 result0, None)
        end
    end.

(** [func (d *Dash) GetExitStatus(ctx) (int, error)] *)
Definition GetExitStatus (d : Dash) : M (Z * option string) :=
  if negb (initialized d) then ret (-1, Some "dash not initialized"%string)
  else if negb (dashGetExitStatus d)
  then ret (-1, Some "dash_get_exitstatus not available"%string)
  else
    r <- Call ExportDashGetExitStatus [] ;;
    match r with
    | CallErr err => ret (-1, Some err)
    | CallOk result0 => ret (int32 result0, None)
    end.

(** [func (d *Dash) GetVar(ctx, name string) (string, error)]. The result
    is [None] when the scan of [readCString] is still running after [fuel]
    bytes. The returned string is read before the deferred [freePtr] runs. *)
Definition GetVar (fuel : nat) (d : Dash) (name : gostring)
    : M (option (gostring * option string)) :=
  if negb (initialized d) then ret (Some ([], Some "dash not initialized"%string))
  else if negb (dashGetVar d)
  then ret (Some ([], Some "dash_getvar not available"%string))
  else
    a <- allocString name ;;
    let namePtr := fst a in
    match snd a with
    | Some err => ret (Some ([], Some err))
    | None =>
        r <- Call ExportDashGetVar [uint64 namePtr] ;;
        match r with
        | CallErr err => freePtr namePtr ;;; ret (Some ([], Some err))
        | CallOk result0 =>
            let valPtr := uint32 result0 in
            if valPtr =? 0 then freePtr namePtr ;;; ret (Some ([], None))
            else
              fun w =>
                let val := readCString fuel (memory (inst (store w))) valPtr in
                (freePtr namePtr ;;;
                 ret (match val with
                      | Some s => Some (s, None)
                      | None => None
                      end)) w
        end
    end.

(** [func (d *Dash) SetVar(ctx, name, value string) error]; the deferred
    releases run last-registered first. *)
Definition SetVar (d : Dash) (name value : gostring) : M (option string) :=
  if negb (initialized d) then ret (Some "dash not initialized"%string)
  else if negb (dashSetVar d)
  then ret (Some "dash_setvar not available"%string)
  else
    a <- allocString name ;;
    let namePtr := fst a in
    match snd a with
    | Some err => ret (Some err)
    | None =>
        b <- allocString value ;;
        let valPtr := fst b in
        match snd b with
        | Some err => freePtr namePtr ;;; ret (Some err)
        | None =>
            r <- Call ExportDashSetVar [uint64 namePtr; uint64 valPtr] ;;
            freePtr valPtr ;;;
            freePtr namePtr ;;;
            match r with
            | CallErr err => ret (Some err)
            | CallOk result0 =>
                if negb (int32 result0 =? 0)
                then ret (Some "dash_setvar failed"%string)
                else ret None
            end
        end
    end.

(** [func (d *Dash) Close(ctx) error] *)
Definition Close (d : Dash) : M (option string * Dash) :=
  d' <- (if initialized d
         then Call ExportDashDestroy [] ;;; ret (set_initialized d false)
         else ret d) ;;
  err <- ModClose ;;
  ret (err, d').

(** The four operations on a session that is not initialized. *)
Definition rejects_uninitialized (d : Dash) : Prop :=
  forall (w : World) (cmd name value : gostring) (fuel : nat),
    Eval d cmd w = ((-1, Some "dash not initialized"%string), w) /\
    GetVar fuel d name w = (Some ([], Some "dash not initialized"%string), w) /\
    SetVar d name value w = (Some "dash not initialized"%string, w) /\
    GetExitStatus d w = ((-1, Some "dash not initialized"%string), w).

(** ** The host imports *)

(** [func setjmpHost(ctx, mod, bufPtr uint32) int32] *)
Definition setjmpHost (bufPtr : Z) (s : Store) : Store * Control Snapshot :=
  let snap := take_snapshot (inst s) in
  let sp := uint32 (stack_pointer (inst s)) in
  let heapBase := uint32 (heap_base (inst s)) in
  let cstack :=
    if sp <? heapBase then
      match Memory.Read (memory (inst s)) sp (uint32 (heapBase - sp)) with
      | Some view => view
      | None => []
      end
    else [] in
  let idx := len (checkpoints (state s)) in
  let cps := checkpoints (state s)
               ++ [{| snapshot := snap; stackPointer := sp; cstack := cstack |}] in
  let (mem', _) := Memory.WriteUint64Le (memory (inst s)) bufPtr (uint64 idx) in
  ({| inst := inst (set_memory s mem'); state := {| checkpoints := cps |} |},
   Returns 0).

(** [func longjmpHost(ctx, mod, bufPtr uint32, val int32)]; indexing the
    slice out of range is a run-time panic, before anything is restored. *)
Definition longjmpHost (bufPtr val : Z) (s : Store) : Store * Control Snapshot :=
  let (idx, _) := Memory.ReadUint64Le (memory (inst s)) bufPtr in
  let val := if val =? 0 then 1 else val in
  match nth_error (checkpoints (state s)) (Z.to_nat idx) with
  | None => (s, Panics "index out of range"%string)
  | Some cp =>
      let s1 := set_stack_pointer s (uint64 (stackPointer cp)) in
      let s2 :=
        if 0 <? len (cstack cp)
        then set_memory s1 (fst (Memory.Write (memory (inst s1)) (stackPointer cp) (cstack cp)))
        else s1 in
      (s2, Restores (snapshot cp) [uint64 (uint32 val)])
  end.

(** The value the capture site sees when the engine resumes it: the
    [int32] result of the [__setjmp] import. *)
Definition observed (c : Control Snapshot) : option Z :=
  match c with
  | Returns r => Some (int32 r)
  | Restores _ (r :: _) => Some (int32 r)
  | _ => None
  end.

End Operations.

(** ** Reading the call trace *)

(** The non-null addresses the guest allocator handed out. *)
Definition allocated_of (ev : Event) : list Z :=
  match ev with
  | EvCall ExportMalloc _ (CallOk r) => if uint32 r =? 0 then [] else [uint32 r]
  | _ => []
  end.

Definition allocated (tr : list Event) : list Z := flat_map allocated_of tr.

(** The addresses passed to the guest deallocator. *)
Definition freed_of (ev : Event) : list Z :=
  match ev with
  | EvCall ExportFree [p] _ => [p]
  | _ => []
  end.

Definition freed (tr : list Event) : list Z := flat_map freed_of tr.

Definition is_free (ev : Event) : bool :=
  match ev with
  | EvCall ExportFree _ _ => true
  | _ => false
  end.

Definition is_malloc (ev : Event) : bool :=
  match ev with
  | EvCall ExportMalloc _ _ => true
  | _ => false
  end.

Definition is_destroy (ev : Event) : bool :=
  match ev with
  | EvCall ExportDashDestroy _ _ => true
  | _ => false
  end.

Definition is_guest_call (ev : Event) : bool :=
  match ev with
  | EvCall _ _ _ => true
  | EvModClose => false
  end.

Definition malloc_or_free (ev : Event) : bool := is_malloc ev || is_free ev.

(** The first call of a trace segment is to the allocator. *)
Definition starts_with_malloc (seg : list Event) : Prop :=
  match seg with
  | ev :: _ => is_malloc ev = true
  | [] => False
  end.

(** A non-null 32-bit guest address. *)
Definition good_ptr (p : Z) : Prop := p <> 0 /\ 0 <= p < 2 ^ 32.

(** A memory of the 32-bit address space. *)
Definition wasm32 (m : Memory.t) : Prop := Memory.Size m <= 2 ^ 32.

(** The 8 bytes of a jump buffer at [bufPtr] lie in memory. *)
Definition jmp_buf_in (m : Memory.t) (bufPtr : Z) : Prop :=
  0 <= bufPtr /\ bufPtr + 8 <= Memory.Size m.

(** ** A small engine to run the model on

    A bump allocator over a 64-byte memory (a zeroed jump buffer at address
    0, then data); [malloc] answers null when the request does not fit, [dash_init] answers a code fixed in the guest,
    [dash_getvar] answers a fixed address. *)

Module Demo.

Record guest_state : Type := mkGuest {
  next : Z;
  init_code : Z;
  getvar_addr : Z
}.

Definition call (f : Export) (params : list Z) (s : Store nat guest_state)
    : Store nat guest_state * CallResult :=
  let g := guest (inst s) in
  match f with
  | ExportMalloc =>
      let n := hd 0 params in
      if next g + n <=? Memory.Size (memory (inst s)) then
        ({| inst := {| memory := memory (inst s);
                       stack_pointer := stack_pointer (inst s);
                       heap_base := heap_base (inst s);
                       guest := {| next := next g + n;
                                   init_code := init_code g;
                                   getvar_addr := getvar_addr g |} |};
            state := state s |}, CallOk (next g))
      else (s, CallOk 0)
  | ExportDashInit => (s, CallOk (init_code g))
  | ExportDashGetVar => (s, CallOk (getvar_addr g))
  | _ => (s, CallOk 0)
  end.

#[global] Instance engine : Engine nat guest_state := {|
  guest_call := call;
  mod_close := fun s => (s, None);
  take_snapshot := fun m => List.length (memory m)
|}.

Definition world (sp : Z) (code : Z) (cps : list (checkpoint nat))
    : World nat guest_state :=
  {| store := {| inst := {| memory := repeat Byte.x00 8 ++ repeat Byte.x07 56;
                            stack_pointer := sp;
                            heap_base := 16;
                            guest := {| next := 16; init_code := code;
                                        getvar_addr := 0 |} |};
                 state := {| checkpoints := cps |} |};
     trace := [] |}.

Definition fresh : Dash := newDash true true true.

Definition hello : gostring := [Byte.x68; Byte.x69].

End Demo.

(** ** The guest between two requests

    What a guest can do to the store while one of its exports runs: compute
    on its own instance (memory, globals, anything else it keeps), and call
    the two host imports, which is its only access to the checkpoint table.
    Control is not followed (a restore resumes the capture site, a panic
    ends the call), so [guest_run] covers every store such a guest can
    reach, and more. *)

Inductive GuestStep (Guest : Type) : Type :=
| CallSetjmp (bufPtr : Z)
| CallLongjmp (bufPtr val : Z)
| Compute (f : ModuleInst Guest -> ModuleInst Guest).
Arguments CallSetjmp {Guest} bufPtr.
Arguments CallLongjmp {Guest} bufPtr val.
Arguments Compute {Guest} f.

Definition is_setjmp {Guest : Type} (st : GuestStep Guest) : bool :=
  match st with
  | CallSetjmp _ => true
  | _ => false
  end.

Section GuestRun.
Context {Snapshot Guest : Type} {E : Engine Snapshot Guest}.

Fixpoint guest_run (steps : list (GuestStep Guest)) (s : Store Snapshot Guest)
    : Store Snapshot Guest :=
  match steps with
  | [] => s
  | CallSetjmp bufPtr :: rest => guest_run rest (fst (setjmpHost bufPtr s))
  | CallLongjmp bufPtr val :: rest => guest_run rest (fst (longjmpHost bufPtr val s))
  | Compute f :: rest => guest_run rest {| inst := f (inst s); state := state s |}
  end.

End GuestRun.

(** A guest that moves its stack pointer and overwrites everything above
    address 8. *)
Module DemoGuest.

Definition scribble (m : ModuleInst Demo.guest_state) : ModuleInst Demo.guest_state :=
  {| memory := firstn 8 (memory m) ++ repeat Byte.x01 (List.length (memory m) - 8);
     stack_pointer := 12;
     heap_base := heap_base m;
     guest := guest m |}.

Definition steps : list (GuestStep Demo.guest_state) :=
  [Compute scribble; CallSetjmp 40; Compute scribble].

End DemoGuest.

(** ** C strings

    The bytes of a C string stored at the head of [bs]: those before the
    first zero byte, or all of [bs] when it has none. Used to say what
    [readCString] returns. *)

Fixpoint upto_nul (bs : list byte) : list byte :=
  match bs with
  | [] => []
  | b :: rest => if Byte.eqb b Byte.x00 then [] else b :: upto_nul rest
  end.

(** A shell whose variable lookup answers address 8, where "bar" is
    stored, on the small engine. *)
Module DemoVar.

Definition bar : gostring := [Byte.x62; Byte.x61; Byte.x72].

Definition world : World nat Demo.guest_state :=
  {| store := {| inst := {| memory := repeat Byte.x00 8 ++ bar ++ [Byte.x00]
                                        ++ repeat Byte.x07 52;
                            stack_pointer := 16;
                            heap_base := 16;
                            guest := {| Demo.next := 16; Demo.init_code := 0;
                                        Demo.getvar_addr := 8 |} |};
                 state := {| checkpoints := [] |} |};
     trace := [] |}.

Definition session : Dash := set_initialized (newDash true true true) true.

End DemoVar.

(** ** Construction

    [NewDash] and [newDashFromCompiled] talk to the runtime before there is
    a module to call: a [Runtime] instance gives the outcome of each of these
    requests. The call of the reactor's [_initialize] is not one of the
    wrapper's exports and is kept out of the trace. *)

(** The export names (the constants of package [dashwasi]). *)
Definition ExportName (f : Export) : string :=
  match f with
  | ExportMalloc => "malloc"
  | ExportFree => "free"
  | ExportDashInit => "dash_init"
  | ExportDashEval => "dash_eval"
  | ExportDashGetExitStatus => "dash_get_exitstatus"
  | ExportDashGetVar => "dash_getvar"
  | ExportDashSetVar => "dash_setvar"
  | ExportDashDestroy => "dash_destroy"
  end.

(** The exports [newDashFromCompiled] insists on, in the order it checks
    them. *)
Definition required_exports : list Export :=
  [ExportMalloc; ExportFree; ExportDashInit; ExportDashEval; ExportDashDestroy].

Class Runtime (Snapshot Guest : Type) : Type := {
  (** the error of [wasi_snapshot_preview1.Instantiate(ctx, r)], or nil *)
  wasi_Instantiate : option string;
  (** the error of instantiating the host module "env" with the two
      imports, or nil *)
  env_Instantiate : option string;
  (** the error of [r.CompileModule(ctx, dashwasi.DashWASM)], or nil *)
  CompileModule : option string;
  (** [r.InstantiateModule(ctx, compiled, config)], the context carrying
      the checkpoint table *)
  InstantiateModule : dashState Snapshot -> string + Store Snapshot Guest;
  (** [mod.ExportedFunction(name) != nil] *)
  ExportedFunction : string -> bool;
  (** [initFn.Call(ctx)], for the export [_initialize] *)
  initialize_Call : Store Snapshot Guest -> Store Snapshot Guest * CallResult
}.

Section Construction.
Context {Snapshot Guest : Type} {E : Engine Snapshot Guest} {R : Runtime Snapshot Guest}.

Local Abbreviation World := (World Snapshot Guest).

Local Notation "x <- m ;; k" := (bind m (fun x => k))
  (at level 61, m at next level, right associativity).
Local Notation "m ;;; k" := (bind m (fun _ => k))
  (at level 61, right associativity).

(** [func CompileDash(ctx, r) (wazero.CompiledModule, error)] *)
Definition CompileDash : option string := CompileModule.

Definition initializeCall : M CallResult :=
  fun w : World =>
    let (s', r) := initialize_Call (store w) in
    (r, {| store := s'; trace := trace w |}).

(** [_ = mod.Close(ctx); return nil, errors.New("missing export: " + name)] *)
Definition missing_export (f : Export) : M (option Dash * option string) :=
  ModClose ;;;
  ret (None, Some (String.append "missing export: " (ExportName f))).

(** [func newDashFromCompiled(ctx, r, compiled, config, state)], returning the
    session or the error;
    the world is [None] when no module was instantiated. *)
Definition newDashFromCompiled (state : dashState Snapshot)
    : (option Dash * option string) * option World :=
  match InstantiateModule state with
  | inl err => ((None, Some err), None)
  | inr s0 =>
      let run : M (option Dash * option string) :=
        failed <- (if ExportedFunction "_initialize" then
                     r <- initializeCall ;;
                     match r with
                     | CallErr err =>
                         ModClose ;;;
                         ret (Some (String.append "_initialize failed: " err))
                     | CallOk _ => ret None
                     end
                   else ret None) ;;
        match failed with
        | Some err => ret (None, Some err)
        | None =>
            let d := newDash (ExportedFunction (ExportName ExportDashGetExitStatus))
                             (ExportedFunction (ExportName ExportDashGetVar))
                             (ExportedFunction (ExportName ExportDashSetVar)) in
            if negb (ExportedFunction (ExportName ExportMalloc))
            then missing_export ExportMalloc
            else if negb (ExportedFunction (ExportName ExportFree))
            then missing_export ExportFree
            else if negb (ExportedFunction (ExportName ExportDashInit))
            then missing_export ExportDashInit
            else if negb (ExportedFunction (ExportName ExportDashEval))
            then missing_export ExportDashEval
            else if negb (ExportedFunction (ExportName ExportDashDestroy))
            then missing_export ExportDashDestroy
            else ret (Some d, None)
        end in
      let (r, w) := run {| store := s0; trace := [] |} in
      (r, Some w)
  end.

(** [func NewDash(ctx, r, config)], returning the session or the error *)
Definition NewDash : (option Dash * option string) * option World :=
  let state := {| checkpoints := [] |} in
  match wasi_Instantiate with
  | Some err => ((None, Some err), None)
  | None =>
      match env_Instantiate with
      | Some err => ((None, Some err), None)
      | None =>
          match CompileDash with
          | Some err => ((None, Some err), None)
          | None => newDashFromCompiled state
          end
      end
  end.

End Construction.

(** A runtime for the small engine: everything succeeds, and the module
    has the exports named in [exports]. *)
Module DemoRuntime.

Definition runtime (exports : list string) (mem : Memory.t)
    : Runtime nat Demo.guest_state :=
  {| wasi_Instantiate := None;
     env_Instantiate := None;
     CompileModule := None;
     InstantiateModule := fun st =>
       inr {| inst := {| memory := mem; stack_pointer := 16; heap_base := 16;
                         guest := {| Demo.next := 16; Demo.init_code := 0;
                                     Demo.getvar_addr := 8 |} |};
              state := st |};
     ExportedFunction := fun name => existsb (String.eqb name) exports;
     initialize_Call := fun s => (s, CallOk 0) |}.

Definition all_exports : list string :=
  ["_initialize"; "malloc"; "free"; "dash_init"; "dash_eval"; "dash_get_exitstatus";
   "dash_getvar"; "dash_setvar"; "dash_destroy"]%string.

Definition memory0 : Memory.t := repeat Byte.x00 64.

(** A module without [free] and without [dash_eval]. *)
Definition some_exports : list string :=
  ["malloc"; "dash_init"; "dash_getvar"; "dash_destroy"]%string.

(** A module with the required exports only. *)
Definition required_only : list string :=
  ["malloc"; "free"; "dash_init"; "dash_eval"; "dash_destroy"]%string.

(** The world [NewDash] starts the session in, on this runtime. *)
Definition world0 : World nat Demo.guest_state :=
  {| store := {| inst := {| memory := memory0; stack_pointer := 16; heap_base := 16;
                            guest := {| Demo.next := 16; Demo.init_code := 0;
                                        Demo.getvar_addr := 8 |} |};
                 state := {| checkpoints := [] |} |};
     trace := [] |}.

Definition dash_c : gostring := [Byte.x2d; Byte.x63].

Definition no_file (name : gostring) : string + gostring := inl "no such file"%string.

End DemoRuntime.

(** ** The command (package main)

    Standard input is the list of lines [scanner.Scan] delivers, the file
    system is the function [ReadFile], and what is written to standard error
    is returned as a list of strings. The runtime's own [r.Close], deferred
    by [main] after the session's [Close], is not part of the model. *)

Definition newline : string := String (Ascii.ascii_of_nat 10) EmptyString.

(** [line == s], for a Go string and a literal. *)
Definition line_is (line : gostring) (s : string) : bool :=
  String.eqb (string_of_list_byte line) s.

(** The lines on which the REPL stops. *)
Definition is_exit (line : gostring) : bool :=
  line_is line "exit" || line_is line "quit".

(** The elements before the first one that satisfies [stop]. *)
Fixpoint take_until {A : Type} (stop : A -> bool) (l : list A) : list A :=
  match l with
  | [] => []
  | x :: rest => if stop x then [] else x :: take_until stop rest
  end.

(** How [main] ends: [log.Fatalf] (which exits with status 1),
    [os.Exit(status)], a return, or the dereference of a nil session. *)
Inductive Exit : Type :=
| LogFatal (msg : string)
| OsExit (status : Z)
| MainReturns
| NilSession.

Definition banner : string :=
  String.append "dash-wasi (POSIX shell in WASM, type 'exit' or Ctrl+D to quit)" newline.

Section CommandLine.
Context {Snapshot Guest : Type} {E : Engine Snapshot Guest} {R : Runtime Snapshot Guest}.

Local Abbreviation World := (World Snapshot Guest).

Local Notation "x <- m ;; k" := (bind m (fun x => k))
  (at level 61, m at next level, right associativity).

(** The loop of [runREPL], on the lines still to come. *)
Fixpoint runREPL_loop (d : Dash) (lines : list gostring) : M (list string) :=
  match lines with
  | [] => ret ["$ "%string; newline]
  | line :: rest =>
      if line_is line "exit" || line_is line "quit" then ret ["$ "%string]
      else if line_is line "" then
        out <- runREPL_loop d rest ;;
        ret ("$ "%string :: out)
      else
        r <- Eval d line ;;
        match snd r with
        | Some err =>
            out <- runREPL_loop d rest ;;
            ret ("$ "%string
                   :: String.append "error: " (String.append err newline) :: out)
        | None =>
            out <- runREPL_loop d rest ;;
            ret ("$ "%string :: out)
        end
  end.

(** [func runREPL(ctx, d)] *)
Definition runREPL (d : Dash) (lines : list gostring) : M (list string) :=
  out <- runREPL_loop d lines ;;
  ret (banner :: out).

(** [status, err := d.Eval(ctx, code)], then [log.Fatalf] or [os.Exit]. *)
Definition eval_and_exit (d : Dash) (code : gostring) : M (Exit * list string) :=
  e <- Eval d code ;;
  match snd e with
  | Some err => ret (LogFatal (String.append "eval error: " err), [])
  | None => ret (OsExit (fst e), [])
  end.

(** [func main()], once [NewDash] has returned the session [d]. *)
Definition main_session (d : Dash) (Args : list gostring)
    (ReadFile : gostring -> string + gostring) (stdin : list gostring)
    : M (Exit * list string) :=
  r <- Init d [] ;;
  match fst r with
  | Some err => ret (LogFatal (String.append "failed to init dash: " err), [])
  | None =>
      let d := snd r in
      if (3 <=? len Args) && line_is (nth 1 Args []) "-c" then
        eval_and_exit d (nth 2 Args [])
      else if (2 <=? len Args) && negb (line_is (nth 1 Args []) "-") then
        match ReadFile (nth 1 Args []) with
        | inl err =>
            ret (LogFatal
                   (String.append "failed to read "
                      (String.append (string_of_list_byte (nth 1 Args []))
                         (String.append ": " err))), [])
        | inr code => eval_and_exit d code
        end
      else
        out <- runREPL d stdin ;;
        c <- Close (snd r) ;;
        ret (MainReturns, out)
  end.

(** [func main()] *)
Definition main (Args : list gostring) (ReadFile : gostring -> string + gostring)
    (stdin : list gostring) : (Exit * list string) * option World :=
  match snd (fst NewDash) with
  | Some err => ((LogFatal (String.append "failed to create dash: " err), []), snd NewDash)
  | None =>
      match fst (fst NewDash), snd NewDash with
      | Some d, Some w =>
          let (r, w') := main_session d Args ReadFile stdin w in (r, Some w')
      | _, _ => ((NilSession, []), snd NewDash)
      end
  end.

(** [Eval] on each command in turn, whatever the outcomes. *)
Fixpoint eval_each (d : Dash) (cmds : list gostring) : M unit :=
  match cmds with
  | [] => ret tt
  | cmd :: rest => bind (Eval d cmd) (fun _ => eval_each d rest)
  end.

End CommandLine.

(** The commands a REPL run evaluates: the lines before the first "exit" or
    "quit", the empty ones left out. *)
Definition repl_commands (lines : list gostring) : list gostring :=
  filter (fun line => negb (line_is line "")) (take_until is_exit lines).

(** A call into the guest other than [dash_destroy] (so neither the
    teardown of the shell nor the release of the module). *)
Definition is_work (ev : Event) : bool := is_guest_call ev && negb (is_destroy ev).

(** * Properties *)

(** ** Integer conversions *)

Lemma uint32_range (z : Z) : 0 <= uint32 z < 2 ^ 32.
Proof. unfold uint32. apply Z.mod_pos_bound. lia. Qed.

Lemma uint32_small (z : Z) : 0 <= z < 2 ^ 32 -> uint32 z = z.
Proof. intros H. unfold uint32. apply Z.mod_small. exact H. Qed.

Lemma uint64_small (z : Z) : 0 <= z < 2 ^ 64 -> uint64 z = z.
Proof. intros H. unfold uint64. apply Z.mod_small. exact H. Qed.

Lemma uint64_uint32 (z : Z) : uint64 (uint32 z) = uint32 z.
Proof. apply uint64_small. pose proof (uint32_range z). lia. Qed.

Lemma uint32_idem (z : Z) : uint32 (uint32 z) = uint32 z.
Proof. apply uint32_small, uint32_range. Qed.

Lemma int32_of_uint32 (v : Z) :
  - 2 ^ 31 <= v < 2 ^ 31 -> int32 (uint64 (uint32 v)) = v.
Proof.
  intros Hv. unfold int32. rewrite uint64_uint32, uint32_idem.
  unfold uint32. destruct (Z.ltb_spec v 0) as [Hneg | Hpos].
  - replace (v mod 2 ^ 32) with (v + 2 ^ 32).
    + destruct (Z.ltb_spec (v + 2 ^ 32) (2 ^ 31)); lia.
    + apply Z.mod_unique with (q := -1); lia.
  - rewrite Z.mod_small by lia.
    destruct (Z.ltb_spec v (2 ^ 31)); lia.
Qed.

Lemma len_app {A : Type} (l1 l2 : list A) : len (l1 ++ l2) = len l1 + len l2.
Proof. unfold len. rewrite length_app. lia. Qed.

Lemma len_nonneg {A : Type} (l : list A) : 0 <= len l.
Proof. unfold len. lia. Qed.

(** ** Memory accessors *)

Lemma Write_inv (m m' : Memory.t) (offset : Z) (v : list byte) (ok : bool) :
  Memory.Write m offset v = (m', ok) ->
  (ok = true /\ offset + len v <= Memory.Size m /\
   m' = firstn (Z.to_nat offset) m ++ v
          ++ skipn (Z.to_nat offset + List.length v) m)
  \/ (ok = false /\ Memory.Size m < offset + len v /\ m' = m).
Proof.
  unfold Memory.Write, Memory.hasSize.
  destruct (Z.leb_spec (offset + len v) (Memory.Size m)) as [Hle | Hgt];
    intros H; inversion H; subst; [left | right]; auto.
Qed.

Lemma Write_Size (m : Memory.t) (offset : Z) (v : list byte) :
  0 <= offset -> Memory.Size (fst (Memory.Write m offset v)) = Memory.Size m.
Proof.
  intros Hoff. destruct (Memory.Write m offset v) as [m' ok] eqn:Hw.
  apply Write_inv in Hw. destruct Hw as [(_ & Hle & ->) | (_ & _ & ->)]; [| reflexivity].
  cbn [fst]. unfold Memory.Size, len in *.
  rewrite !length_app, length_firstn, length_skipn. lia.
Qed.

Lemma ReadByte_Write (m m' : Memory.t) (offset : Z) (v : list byte) (i : nat) :
  0 <= offset -> Memory.Write m offset v = (m', true) ->
  (i < List.length v)%nat ->
  Memory.ReadByte m' (offset + Z.of_nat i) = nth_error v i.
Proof.
  intros Hoff Hw Hi.
  assert (Hsz : Memory.Size m' = Memory.Size m).
  { pose proof (Write_Size m offset v Hoff) as Hs. rewrite Hw in Hs. exact Hs. }
  apply Write_inv in Hw. destruct Hw as [(_ & Hle & Hm') | (Hf & _)]; [| discriminate].
  unfold Memory.ReadByte, Memory.hasSize. rewrite Hsz.
  unfold Memory.Size, len in *.
  destruct (Z.leb_spec (offset + Z.of_nat i + 1) (Z.of_nat (List.length m))); [| lia].
  subst m'. replace (Z.to_nat (offset + Z.of_nat i)) with (Z.to_nat offset + i)%nat by lia.
  rewrite nth_error_app2 by (rewrite length_firstn; lia).
  rewrite length_firstn.
  replace (Z.to_nat offset + i - Nat.min (Z.to_nat offset) (List.length m))%nat with i by lia.
  apply nth_error_app1. exact Hi.
Qed.

Lemma Read_Write (m m' : Memory.t) (offset : Z) (v : list byte) :
  0 <= offset -> Memory.Write m offset v = (m', true) ->
  Memory.Read m' offset (len v) = Some v.
Proof.
  intros Hoff Hw.
  assert (Hsz : Memory.Size m' = Memory.Size m).
  { pose proof (Write_Size m offset v Hoff) as Hs. rewrite Hw in Hs. exact Hs. }
  apply Write_inv in Hw. destruct Hw as [(_ & Hle & Hm') | (Hf & _)]; [| discriminate].
  unfold Memory.Read, Memory.hasSize. rewrite Hsz.
  destruct (Z.leb_spec (offset + len v) (Memory.Size m)); [| lia].
  f_equal. subst m'. unfold Memory.Size, len in *.
  rewrite skipn_app, length_firstn.
  rewrite skipn_all2 by (rewrite length_firstn; lia).
  replace (Z.to_nat offset - Nat.min (Z.to_nat offset) (List.length m))%nat with 0%nat by lia.
  cbn [skipn app]. rewrite Nat2Z.id, firstn_app, firstn_all, Nat.sub_diag.
  cbn [firstn]. apply app_nil_r.
Qed.

(** ** readCString *)

Lemma readCString_loop_scan (rest : list byte) :
  forall (fuel : nat) (mem : Memory.t) (ptr i : Z) (buf : list byte),
    0 <= ptr -> 0 <= i -> ptr + i + len rest < 2 ^ 32 ->
    (forall k : nat, (k <= List.length rest)%nat ->
       Memory.ReadByte mem (ptr + i + Z.of_nat k) = nth_error (rest ++ [Byte.x00]) k) ->
    ~ In Byte.x00 rest ->
    (List.length rest < fuel)%nat ->
    readCString_loop fuel mem ptr i buf = Some (buf ++ rest).
Proof.
  induction rest as [| b rest IH]; intros fuel mem ptr i buf Hp Hi Hrange Hmem Hnz Hfuel;
    (destruct fuel as [| fuel]; [cbn in Hfuel; lia |]); cbn [readCString_loop].
  - rewrite uint32_small by (unfold len in Hrange; cbn in Hrange; lia).
    specialize (Hmem 0%nat (Nat.le_0_l _)). rewrite Z.add_0_r in Hmem.
    rewrite Hmem. cbn. now rewrite app_nil_r.
  - assert (Hlen : len (b :: rest) = 1 + len rest) by (unfold len; cbn [List.length]; lia).
    pose proof (len_nonneg rest) as Hnn.
    rewrite uint32_small by lia.
    pose proof (Hmem 0%nat (Nat.le_0_l _)) as H0. rewrite Z.add_0_r in H0.
    rewrite H0. cbn [app nth_error].
    destruct (Byte.eqb b Byte.x00) eqn:Hb.
    + apply Byte.byte_dec_bl in Hb. subst b. exfalso. apply Hnz. now left.
    + rewrite uint32_small by lia.
      rewrite (IH fuel mem ptr (i + 1) (buf ++ [b])).
      * now rewrite <- app_assoc.
      * exact Hp.
      * lia.
      * lia.
      * intros k Hk. specialize (Hmem (S k)). cbn [List.length app nth_error] in Hmem.
        rewrite <- Hmem by lia. f_equal. lia.
      * intros Hin. apply Hnz. now right.
      * cbn [List.length] in Hfuel. lia.
Qed.

(** Scanning from address 0: the result is empty exactly when address 0 is
    unreadable or holds a zero byte. *)
Lemma readCString_null_empty_iff (fuel : nat) (mem : Memory.t) :
  readCString (S fuel) mem 0 = Some [] <->
  (Memory.ReadByte mem 0 = None \/ Memory.ReadByte mem 0 = Some Byte.x00).
Proof.
  unfold readCString. cbn [readCString_loop].
  change (uint32 (0 + 0)) with 0.
  destruct (Memory.ReadByte mem 0) as [b |] eqn:Hb.
  - destruct (Byte.eqb b Byte.x00) eqn:Heq.
    + apply Byte.byte_dec_bl in Heq. subst b. split; auto.
    + split.
      * intros H. exfalso.
        assert (Hgrow : forall f i buf r,
                   readCString_loop f mem 0 i buf = Some r ->
                   (List.length buf <= List.length r)%nat).
        { induction f as [| f IHf]; intros i buf r Hr; cbn [readCString_loop] in Hr.
          - discriminate.
          - destruct (Memory.ReadByte mem (uint32 (0 + i))) as [c |].
            + destruct (Byte.eqb c Byte.x00).
              * inversion Hr. lia.
              * apply IHf in Hr. rewrite length_app in Hr. cbn in Hr. lia.
            + inversion Hr. lia. }
        apply Hgrow in H. cbn in H. lia.
      * intros [H | H]; [discriminate |].
        inversion H. subst b. cbn in Heq. discriminate.
  - split; auto.
Qed.

(** ** The wrapper *)

Section Proofs.
Context {Snapshot Guest : Type} {E : Engine Snapshot Guest}.

Local Abbreviation World := (World Snapshot Guest).
Local Abbreviation Store := (Store Snapshot Guest).

Lemma allocated_app (a b : list Event) : allocated (a ++ b) = allocated a ++ allocated b.
Proof. apply flat_map_app. Qed.

Lemma freed_app (a b : list Event) : freed (a ++ b) = freed a ++ freed b.
Proof. apply flat_map_app. Qed.

Lemma Call_eq (f : Export) (params : list Z) (w : World) :
  Call f params w =
  (snd (guest_call f params (store w)),
   {| store := fst (guest_call f params (store w));
      trace := trace w ++ [EvCall f params (snd (guest_call f params (store w)))] |}).
Proof. unfold Call. destruct (guest_call f params (store w)); reflexivity. Qed.

Lemma freePtr_good (p : Z) (w : World) :
  good_ptr p ->
  exists res,
    freePtr p w = (tt, {| store := fst (guest_call ExportFree [p] (store w));
                          trace := trace w ++ [EvCall ExportFree [p] res] |}).
Proof.
  intros [Hnz Hr]. unfold freePtr.
  destruct (Z.eqb_spec p 0) as [-> | _]; [congruence |]. cbn [negb].
  unfold bind, ret. rewrite Call_eq, uint64_small by lia. eauto.
Qed.

Lemma freePtrs_spec (ptrs : list Z) :
  forall w : World,
    Forall good_ptr ptrs ->
    exists seg,
      trace (snd (freePtrs ptrs w)) = trace w ++ seg /\
      freed seg = ptrs /\ allocated seg = [] /\
      forallb is_free seg = true /\ List.length seg = List.length ptrs.
Proof.
  induction ptrs as [| p ptrs IH]; intros w Hgood; cbn [freePtrs].
  - exists []. cbn. rewrite app_nil_r. auto.
  - inversion Hgood as [| ? ? Hp Hrest]; subst.
    destruct (freePtr_good p w Hp) as [res Hfree].
    unfold bind. rewrite Hfree.
    destruct (IH {| store := fst (guest_call ExportFree [p] (store w));
                    trace := trace w ++ [EvCall ExportFree [p] res] |} Hrest)
      as (seg & Htr & Hfr & Hal & Hall & Hlen).
    exists (EvCall ExportFree [p] res :: seg).
    rewrite Htr. cbn [trace]. rewrite <- app_assoc. cbn [app].
    change (EvCall ExportFree [p] res :: seg) with ([EvCall ExportFree [p] res] ++ seg).
    rewrite freed_app, allocated_app, forallb_app, length_app, Hfr, Hal, Hall, Hlen.
    repeat split; reflexivity.
Qed.

Lemma allocString_ok (s : gostring) (w w' : World) (ptr : Z) :
  allocString s w = ((ptr, None), w') ->
  exists r,
    snd (guest_call ExportMalloc [uint64 (len s + 1)] (store w)) = CallOk r /\
    ptr = uint32 r /\ good_ptr ptr /\
    Memory.Write
      (memory (inst (fst (guest_call ExportMalloc [uint64 (len s + 1)] (store w)))))
      ptr (s ++ [Byte.x00]) = (memory (inst (store w')), true) /\
    trace w' = trace w ++ [EvCall ExportMalloc [uint64 (len s + 1)] (CallOk r)].
Proof.
  unfold allocString, bind, ret. rewrite Call_eq.
  destruct (snd (guest_call ExportMalloc [uint64 (len s + 1)] (store w))) as [e | r] eqn:Hr.
  - intros H. inversion H.
  - destruct (Z.eqb_spec (uint32 r) 0) as [Hz | Hnz].
    + intros H. inversion H.
    + unfold MemWrite. cbn [store trace].
      destruct (Memory.Write _ (uint32 r) (s ++ [Byte.x00])) as [m' ok] eqn:Hw.
      destruct ok; cbn [negb].
      * intros H. inversion H. subst. exists r. cbn [store trace set_memory inst memory].
        repeat split; auto; apply uint32_range.
      * rewrite Call_eq. intros H. inversion H.
Qed.

Lemma allocString_err (s : gostring) (w w' : World) (ptr : Z) (e : string) :
  allocString s w = ((ptr, Some e), w') ->
  exists seg,
    trace w' = trace w ++ seg /\ freed seg = allocated seg /\
    forallb malloc_or_free seg = true /\ starts_with_malloc seg.
Proof.
  unfold allocString, bind, ret. rewrite Call_eq.
  destruct (snd (guest_call ExportMalloc [uint64 (len s + 1)] (store w))) as [e0 | r] eqn:Hr.
  - intros H. inversion H. subst. eexists. cbn [trace]. repeat split; reflexivity.
  - destruct (Z.eqb_spec (uint32 r) 0) as [Hz | Hnz].
    + intros H. inversion H. subst. eexists. cbn [trace]. split; [reflexivity |].
      unfold allocated, freed. cbn. rewrite Hz. cbn. auto.
    + unfold MemWrite. cbn [store trace].
      destruct (Memory.Write _ (uint32 r) (s ++ [Byte.x00])) as [m' ok] eqn:Hw.
      destruct ok; cbn [negb].
      * intros H. inversion H.
      * rewrite Call_eq. intros H. inversion H. subst. cbn [trace store].
        rewrite <- app_assoc. eexists. split; [reflexivity |].
        unfold allocated, freed. cbn. rewrite uint64_uint32.
        destruct (Z.eqb_spec (uint32 r) 0); [contradiction |]. cbn. auto.
Qed.

(** C1. Round trip of the marshalling helpers: when [allocString s]
    succeeds with address [p], for a string [s] without a zero byte, in a
    memory of the 32-bit address space, [readCString p] on the resulting
    memory terminates (any fuel above [len s] is enough) and returns [s]. *)
Theorem readCString_allocString (s : gostring) (w w' : World) (p : Z) (fuel : nat) :
  ~ In Byte.x00 s ->
  allocString s w = ((p, None), w') ->
  wasm32 (memory (inst (store w'))) ->
  (List.length s < fuel)%nat ->
  readCString fuel (memory (inst (store w'))) p = Some s.
Proof.
  intros Hnz Halloc H32 Hfuel.
  destruct (allocString_ok _ _ _ _ Halloc) as (r & _ & _ & [_ Hrange] & Hw & _).
  set (m0 := memory (inst (fst (guest_call ExportMalloc [uint64 (len s + 1)] (store w))))) in *.
  set (m' := memory (inst (store w'))) in *.
  assert (Hsize : Memory.Size m' = Memory.Size m0).
  { pose proof (Write_Size m0 p (s ++ [Byte.x00]) (proj1 Hrange)) as Hs.
    rewrite Hw in Hs. exact Hs. }
  destruct (Write_inv _ _ _ _ _ Hw) as [(_ & Hfit & _) | (Hf & _)]; [| discriminate].
  rewrite len_app in Hfit. change (len [Byte.x00]) with 1 in Hfit.
  unfold wasm32 in H32. unfold readCString.
  apply (readCString_loop_scan s fuel m' p 0 []);
    [lia | lia | lia | | exact Hnz | exact Hfuel].
  intros k Hk. rewrite Z.add_0_r.
  apply (ReadByte_Write m0 m' p (s ++ [Byte.x00]) k); try tauto.
  rewrite length_app. cbn. lia.
Qed.

(** ** Init: allocations and releases *)

Lemma upd_firstn {A : Type} (l : list A) :
  forall (i : nat) (x : A),
    (i < List.length l)%nat -> firstn (S i) (upd l i x) = firstn i l ++ [x].
Proof.
  induction l as [| h t IH]; intros i x Hi; cbn [List.length] in Hi; [lia |].
  destruct i as [| i].
  - reflexivity.
  - cbn [upd]. change (firstn (S (S i)) (h :: upd t i x)) with (h :: firstn (S i) (upd t i x)).
    rewrite IH by lia. reflexivity.
Qed.

Lemma upd_length {A : Type} (l : list A) :
  forall (i : nat) (x : A), List.length (upd l i x) = List.length l.
Proof.
  induction l as [| h t IH]; intros [| i] x; cbn [upd List.length]; auto.
Qed.

Lemma forallb_is_malloc_weaken (seg : list Event) :
  forallb is_malloc seg = true -> forallb malloc_or_free seg = true.
Proof.
  rewrite !forallb_forall. intros H ev Hin. unfold malloc_or_free.
  rewrite (H ev Hin). reflexivity.
Qed.

Lemma forallb_is_free_weaken (seg : list Event) :
  forallb is_free seg = true -> forallb malloc_or_free seg = true.
Proof.
  rewrite !forallb_forall. intros H ev Hin. unfold malloc_or_free.
  rewrite (H ev Hin). apply orb_true_r.
Qed.

Lemma Init_allocArgs_spec (args : list gostring) :
  forall (i : nat) (ptrs : list Z) (w : World),
    (i + List.length args = List.length ptrs)%nat ->
    Forall good_ptr (firstn i ptrs) ->
    exists seg,
      trace (snd (Init_allocArgs args i ptrs w)) = trace w ++ seg /\
      (args <> [] -> starts_with_malloc seg) /\
      match fst (fst (Init_allocArgs args i ptrs w)) with
      | None =>
          exists new,
            snd (fst (Init_allocArgs args i ptrs w)) = firstn i ptrs ++ new /\
            List.length new = List.length args /\ Forall good_ptr new /\
            allocated seg = new /\ freed seg = [] /\ forallb is_malloc seg = true
      | Some _ =>
          Permutation (freed seg) (firstn i ptrs ++ allocated seg) /\
          forallb malloc_or_free seg = true
      end.
Proof.
  induction args as [| arg rest IH]; intros i ptrs w Hlen Hdone; cbn [Init_allocArgs].
  - unfold ret. cbn [fst snd]. exists []. rewrite app_nil_r. split; [reflexivity |].
    split; [congruence |].
    exists []. rewrite app_nil_r. cbn [List.length] in *.
    repeat split; auto. symmetry. apply firstn_all2. lia.
  - unfold bind.
    destruct (allocString arg w) as [[ptr err] w1] eqn:Halloc. cbn [fst snd].
    destruct err as [e |].
    + destruct (allocString_err _ _ _ _ _ Halloc) as (seg1 & Htr1 & Hbal & Hmf1 & Hst1).
      destruct (freePtrs_spec (firstn i ptrs) w1 Hdone)
        as (seg2 & Htr2 & Hfr2 & Hal2 & Hfree2 & _).
      unfold ret.
      destruct (freePtrs (firstn i ptrs) w1) as [u w2]. cbn [fst snd] in *.
      exists (seg1 ++ seg2). rewrite Htr2, Htr1, app_assoc. split; [reflexivity |].
      split; [intros _; destruct seg1; [contradiction | exact Hst1] |].
      rewrite freed_app, allocated_app, forallb_app, Hfr2, Hal2, Hbal, Hmf1, app_nil_r.
      split; [apply Permutation_app_comm | now apply forallb_is_free_weaken].
    + destruct (allocString_ok _ _ _ _ Halloc) as (r & _ & Hptr & Hgood & _ & Htr1).
      cbn [List.length] in Hlen.
      assert (Hnext : firstn (S i) (upd ptrs i ptr) = firstn i ptrs ++ [ptr])
        by (apply upd_firstn; lia).
      destruct (IH (S i) (upd ptrs i ptr) w1) as (seg2 & Htr2 & _ & Hcase).
      * rewrite upd_length. lia.
      * rewrite Hnext. apply Forall_app. split; [exact Hdone | now constructor].
      * set (ev := EvCall ExportMalloc [uint64 (len arg + 1)] (CallOk r)) in *.
        assert (Hev : allocated [ev] = [ptr]).
        { unfold allocated, ev. cbn. rewrite <- Hptr.
          destruct Hgood as [Hnz _]. destruct (Z.eqb_spec ptr 0); [contradiction | reflexivity]. }
        exists (ev :: seg2). rewrite Htr2, Htr1, <- app_assoc. split; [reflexivity |].
        split; [intros _; reflexivity |].
        change (ev :: seg2) with ([ev] ++ seg2).
        rewrite freed_app, allocated_app, !forallb_app, Hev.
        destruct (fst (fst (Init_allocArgs rest (S i) (upd ptrs i ptr) w1))).
        -- destruct Hcase as [Hperm Hmf]. rewrite Hnext, <- app_assoc in Hperm.
           split; [exact Hperm | exact Hmf].
        -- destruct Hcase as (new & Hptrs & Hnl & Hng & Hal & Hfr & Hm).
           exists (ptr :: new). rewrite Hptrs, Hnext, <- app_assoc, Hal, Hfr, Hm.
           repeat split; auto. cbn [List.length]. now rewrite Hnl.
Qed.

(** The pointer writes into [argv] make no call. *)
Lemma Init_writeArgv_trace (argv : Z) (ptrs : list Z) :
  forall (i : nat) (w : World), trace (snd (Init_writeArgv argv i ptrs w)) = trace w.
Proof.
  induction ptrs as [| p rest IH]; intros i w; cbn [Init_writeArgv].
  - reflexivity.
  - unfold bind, MemWriteUint32Le.
    destruct (Memory.WriteUint32Le _ _ _) as [m' ok]. rewrite IH. reflexivity.
Qed.

(** The calls of one [Init] on a session that is not initialized: either
    marshalling failed and only the allocator and the deallocator were
    called, or the trace is the allocations, the [dash_init] call, and one
    release for each allocation. *)
Lemma Init_trace_shape (d : Dash) (args : list gostring) (w : World) :
  initialized d = false ->
  exists seg,
    trace (snd (Init d args w)) = trace w ++ seg /\
    starts_with_malloc seg /\
    Permutation (freed seg) (allocated seg) /\
    ((forallb malloc_or_free seg = true /\
      exists e, fst (Init d args w) = (Some e, d))
     \/
     (exists pre ptrs argv res post,
        seg = pre ++ EvCall ExportDashInit
                       [uint64 (if len args =? 0 then 1 else len args); argv] res :: post /\
        forallb is_malloc pre = true /\
        allocated pre = ptrs ++ [argv] /\
        len ptrs = (if len args =? 0 then 1 else len args) /\
        forallb is_free post = true /\
        freed post = argv :: ptrs /\
        List.length post = S (List.length ptrs) /\
        fst (Init d args w) = Init_verdict d res)).
Proof.
  intros Hinit. unfold Init. rewrite Hinit.
  set (args' := if len args =? 0 then default_args else args).
  assert (Hargc : len args' = (if len args =? 0 then 1 else len args)).
  { unfold args'. destruct (len args =? 0); reflexivity. }
  assert (Hne : args' <> []).
  { unfold args', default_args. destruct (Z.eqb_spec (len args) 0) as [_ | Hn];
      [discriminate | intros ->; now apply Hn]. }
  rewrite <- Hargc. clearbody args'.
  destruct (Init_allocArgs_spec args' 0 (repeat 0 (List.length args')) w)
    as (seg1 & Htr1 & Hst & Hcase).
  { now rewrite repeat_length. }
  { constructor. }
  specialize (Hst Hne).
  assert (Hstapp : forall rest, starts_with_malloc (seg1 ++ rest))
    by (intros rest; destruct seg1; [contradiction | exact Hst]).
  unfold bind.
  destruct (Init_allocArgs args' 0 (repeat 0 (List.length args')) w)
    as [[err ptrs] w1]. cbn [fst snd firstn app] in *.
  destruct err as [e |].
  - destruct Hcase as [Hperm Hmf]. exists seg1. unfold ret. cbn [fst snd]. eauto 8.
  - destruct Hcase as (new & -> & Hnl & Hgood & Hal & Hfr & Hm).
    rewrite Call_eq.
    set (ev := EvCall ExportMalloc [uint64 (len args' * 4)]
                 (snd (guest_call ExportMalloc [uint64 (len args' * 4)] (store w1)))).
    set (w2 := {| store := fst (guest_call ExportMalloc [uint64 (len args' * 4)] (store w1));
                  trace := trace w1 ++ [ev] |}).
    assert (Hstop : forall k : M (option string * Dash),
               (forall w0, k w0 = (fst (k w0), w0)) ->
               (exists e, forall w0, fst (k w0) = (Some e, d)) ->
               allocated [ev] = [] ->
               exists seg,
                 trace (snd (let (_, w') := freePtrs new w2 in k w')) = trace w ++ seg /\
                 starts_with_malloc seg /\
                 Permutation (freed seg) (allocated seg) /\
                 forallb malloc_or_free seg = true /\
                 exists e, fst (let (_, w') := freePtrs new w2 in k w') = (Some e, d)).
    { intros k Hk [e He] Hev.
      destruct (freePtrs_spec new w2 Hgood) as (seg2 & Htr2 & Hfr2 & Hal2 & Hfree2 & _).
      destruct (freePtrs new w2) as [u w3]. cbn [snd] in Htr2.
      rewrite Hk. cbn [fst snd]. exists (seg1 ++ [ev] ++ seg2).
      rewrite Htr2. unfold w2. cbn [trace]. rewrite Htr1, <- !app_assoc.
      split; [reflexivity |]. split; [apply Hstapp |].
      rewrite !freed_app, !allocated_app, !forallb_app, Hfr, Hal, Hfr2, Hal2, Hev.
      rewrite (forallb_is_malloc_weaken _ Hm), (forallb_is_free_weaken _ Hfree2).
      cbn. rewrite app_nil_r. repeat split; eauto. }
    destruct (snd (guest_call ExportMalloc [uint64 (len args' * 4)] (store w1)))
      as [e | r] eqn:Hr.
    + destruct (Hstop (ret (Some e, d))) as (seg & H1 & H0 & H2 & H3 & H4);
        [reflexivity | exists e; reflexivity | reflexivity |].
      exists seg. unfold bind. eauto 8.
    + destruct (Z.eqb_spec (uint32 r) 0) as [Hz | Hnz].
      * destruct (Hstop (ret (Some "malloc returned null for argv"%string, d)))
          as (seg & H1 & H0 & H2 & H3 & H4);
          [reflexivity | eexists; reflexivity
          | unfold ev, allocated; cbn; now rewrite Hz |].
        exists seg. unfold bind. eauto 8.
      * clear Hstop.
        assert (Hargv : good_ptr (uint32 r)) by (split; [exact Hnz | apply uint32_range]).
        pose proof (Init_writeArgv_trace (uint32 r) new 0 w2) as Htr3.
        destruct (Init_writeArgv (uint32 r) 0 new w2) as [u w3]. cbn [snd] in Htr3.
        rewrite Call_eq.
        set (params := [uint64 (len args'); uint64 (uint32 r)]).
        set (res := snd (guest_call ExportDashInit params (store w3))).
        destruct (freePtr_good (uint32 r)
                    {| store := fst (guest_call ExportDashInit params (store w3));
                       trace := trace w3 ++ [EvCall ExportDashInit params res] |} Hargv)
          as [fres Hfree]. rewrite Hfree. cbn [store trace].
        match goal with
        | |- context [freePtrs new ?w0] =>
            destruct (freePtrs_spec new w0 Hgood) as (seg2 & Htr2 & Hfr2 & Hal2 & Hfree2 & Hlen2);
            destruct (freePtrs new w0) as [u' w5]
        end.
        cbn [snd trace] in Htr2.
        assert (Hout : forall v : M (option string * Dash),
                   v = ret (Init_verdict d res) -> v w5 = (Init_verdict d res, w5))
          by (intros v ->; reflexivity).
        rewrite Hout by (unfold Init_verdict; destruct res as [e | r0];
                         [| destruct (negb (int32 r0 =? 0))]; reflexivity).
        cbn [fst snd].
        exists ((seg1 ++ [ev]) ++ EvCall ExportDashInit params res
                  :: EvCall ExportFree [uint32 r] fres :: seg2).
        assert (Hev : allocated [ev] = [uint32 r]).
        { unfold ev, allocated. cbn.
          destruct (Z.eqb_spec (uint32 r) 0); [contradiction | reflexivity]. }
        split; [| split; [| split]].
        -- rewrite Htr2, Htr3. unfold w2. cbn [trace]. rewrite Htr1, <- !app_assoc.
           reflexivity.
        -- rewrite <- app_assoc. apply Hstapp.
        -- change (EvCall ExportDashInit params res :: EvCall ExportFree [uint32 r] fres :: seg2)
             with ([EvCall ExportDashInit params res]
                     ++ [EvCall ExportFree [uint32 r] fres] ++ seg2).
           rewrite !freed_app, !allocated_app, Hfr, Hal, Hfr2, Hal2, Hev.
           cbn. rewrite app_nil_r. apply Permutation_cons_append.
        -- right. exists (seg1 ++ [ev]), new, (uint32 r), res,
             (EvCall ExportFree [uint32 r] fres :: seg2).
           unfold params at 1. rewrite uint64_uint32.
           rewrite forallb_app, allocated_app, Hm, Hal, Hev.
           change (EvCall ExportFree [uint32 r] fres :: seg2)
             with ([EvCall ExportFree [uint32 r] fres] ++ seg2).
           rewrite forallb_app, freed_app, Hfr2, Hfree2, length_app, Hlen2.
           unfold len in *. rewrite Hnl.
           repeat split; reflexivity.
Qed.

Lemma dash_init_between (pre post : list Event) (ev : Event) (params : list Z)
    (res : CallResult) :
  forallb is_malloc pre = true -> forallb is_free post = true ->
  In (EvCall ExportDashInit params res) (pre ++ ev :: post) ->
  ev = EvCall ExportDashInit params res.
Proof.
  intros Hpre Hpost Hin. rewrite forallb_forall in Hpre, Hpost.
  apply in_app_or in Hin. destruct Hin as [Hin | [Hin | Hin]].
  - apply Hpre in Hin. discriminate.
  - exact Hin.
  - apply Hpost in Hin. discriminate.
Qed.

(** C6. Every path of [Init] releases what it allocated: the addresses
    passed to the deallocator during the call are, counted with
    multiplicity, the non-null addresses the allocator returned during the
    call. When the call reaches the guest's [dash_init], the trace is: only
    allocations before it (the argument strings, then [argv]), and after it
    exactly one release for [argv] and one for each argument string, whatever
    [dash_init] answered. *)
Theorem Init_releases_allocations (d : Dash) (args : list gostring) (w : World) :
  exists seg,
    trace (snd (Init d args w)) = trace w ++ seg /\
    Permutation (freed seg) (allocated seg) /\
    (forall params res,
        In (EvCall ExportDashInit params res) seg ->
        exists pre ptrs argv post,
          seg = pre ++ EvCall ExportDashInit params res :: post /\
          forallb is_malloc pre = true /\
          allocated pre = ptrs ++ [argv] /\
          len ptrs = (if len args =? 0 then 1 else len args) /\
          forallb is_free post = true /\
          freed post = argv :: ptrs /\
          List.length post = S (List.length ptrs)).
Proof.
  destruct (initialized d) eqn:Hinit.
  - exists []. unfold Init. rewrite Hinit. unfold ret. cbn [snd].
    rewrite app_nil_r. repeat split; auto. intros params res [].
  - destruct (Init_trace_shape d args w Hinit) as (seg & Htr & _ & Hperm & Hshape).
    exists seg. split; [exact Htr |]. split; [exact Hperm |].
    intros params res Hin.
    destruct Hshape as [[Hmf _] | (pre & ptrs & argv & res' & post & Hseg & Hpre & Hal & Hlen
                                   & Hpost & Hfr & Hpl & _)].
    + rewrite forallb_forall in Hmf. apply Hmf in Hin. discriminate.
    + exists pre, ptrs, argv, post. subst seg.
      rewrite (dash_init_between _ _ _ _ _ Hpre Hpost Hin) at 1. auto 10.
Qed.

(** ** Initialization guards *)

Lemma not_initialized_guards (d : Dash) :
  initialized d = false -> rejects_uninitialized d.
Proof.
  intros Hinit w cmd name value fuel.
  unfold Eval, GetVar, SetVar, GetExitStatus. rewrite Hinit. cbn [negb].
  repeat split; reflexivity.
Qed.

(** C5. Before a successful [Init] (the flag [initialized] is false, as it
    is on a new session) each of [Eval], [GetVar], [SetVar] and
    [GetExitStatus] fails with "dash not initialized", making no call and
    leaving the world as it was. On an initialized session [Init] fails with
    "dash already initialized", and the session, guest memory, the
    checkpoint table and the call trace are unchanged. *)
Theorem initialization_guards (d : Dash) :
  (initialized d = false -> rejects_uninitialized d) /\
  (forall getExitStatus getVar setVar : bool,
      rejects_uninitialized (newDash getExitStatus getVar setVar)) /\
  (initialized d = true ->
   forall (args : list gostring) (w : World),
     Init d args w = ((Some "dash already initialized"%string, d), w)).
Proof.
  split; [| split].
  - apply not_initialized_guards.
  - intros a b c. now apply not_initialized_guards.
  - intros Hinit args w. unfold Init. rewrite Hinit. reflexivity.
Qed.

(** C9. On a session that is not initialized, an [Init] that returns an
    error leaves the session as it was: [initialized] is still false, the
    four operations still fail with "dash not initialized", and a further
    [Init] is let through by the guard (it goes on to call the allocator).
    [initialized] is true after the call exactly when the call returned no
    error, and exactly when the guest's [dash_init] was called and answered
    a result whose [int32] value is 0. *)
Theorem Init_error_keeps_uninitialized (d : Dash) (args : list gostring) (w : World) :
  initialized d = false ->
  forall (err : option string) (d' : Dash) (w' : World),
    Init d args w = ((err, d'), w') ->
    (err <> None ->
     d' = d /\ initialized d' = false /\ rejects_uninitialized d' /\
     forall (args2 : list gostring) (w2 : World),
       exists seg2,
         trace (snd (Init d' args2 w2)) = trace w2 ++ seg2 /\
         starts_with_malloc seg2) /\
    (initialized d' = true <-> err = None) /\
    (initialized d' = true <->
     exists seg params r0,
       trace w' = trace w ++ seg /\
       In (EvCall ExportDashInit params (CallOk r0)) seg /\ int32 r0 = 0).
Proof.
  intros Hinit err d' w' HInit.
  destruct (Init_trace_shape d args w Hinit) as (seg & Htr & _ & _ & Hshape).
  rewrite HInit in Htr, Hshape. cbn [fst snd] in Htr, Hshape.
  assert (Hstay : rejects_uninitialized d /\
                  forall (args2 : list gostring) (w2 : World),
                    exists seg2,
                      trace (snd (Init d args2 w2)) = trace w2 ++ seg2 /\
                      starts_with_malloc seg2).
  { split; [now apply not_initialized_guards |].
    intros args2 w2.
    destruct (Init_trace_shape d args2 w2 Hinit) as (seg2 & Htr2 & Hst2 & _).
    eauto. }
  assert (Hnocall : forall seg0 params r0,
             trace w' = trace w ++ seg0 ->
             In (EvCall ExportDashInit params (CallOk r0)) seg0 ->
             In (EvCall ExportDashInit params (CallOk r0)) seg).
  { intros seg0 params r0 Htr0 Hin. rewrite Htr in Htr0.
    apply app_inv_head in Htr0. now subst seg0. }
  destruct Hshape as [[Hmf [e He]] | (pre & ptrs & argv & res & post & Hseg & Hpre & _ & _
                                      & Hpost & _ & _ & Hres)].
  - inversion He; subst err d'.
    split; [intros _; tauto |]. split.
    + split; [congruence | discriminate].
    + split; [congruence |].
      intros (seg0 & params & r0 & Htr0 & Hin & _).
      apply (Hnocall _ _ _ Htr0) in Hin.
      rewrite forallb_forall in Hmf. apply Hmf in Hin. discriminate.
  - assert (Hsame : forall params r0,
               In (EvCall ExportDashInit params (CallOk r0)) seg -> res = CallOk r0).
    { intros params r0 Hin. rewrite Hseg in Hin.
      apply (dash_init_between _ _ _ _ _ Hpre Hpost) in Hin. now inversion Hin. }
    unfold Init_verdict in Hres. destruct res as [e | r].
    + inversion Hres; subst err d'.
      split; [intros _; tauto |]. split.
      * split; [congruence | discriminate].
      * split; [congruence |].
        intros (seg0 & params & r0 & Htr0 & Hin & _).
        apply (Hnocall _ _ _ Htr0), Hsame in Hin. discriminate.
    + destruct (Z.eqb_spec (int32 r) 0) as [Hz | Hnz]; cbn [negb] in Hres;
        inversion Hres; subst err d'.
      * split; [intros H; now contradiction H |]. split.
        -- split; reflexivity.
        -- split; [intros _ | reflexivity].
           exists seg, [uint64 (if len args =? 0 then 1 else len args); argv], r.
           repeat split; auto. rewrite Hseg. apply in_elt.
      * split; [intros _; tauto |]. split.
        -- split; [congruence | discriminate].
        -- split; [congruence |].
           intros (seg0 & params & r0 & Htr0 & Hin & Hzero).
           apply (Hnocall _ _ _ Htr0), Hsame in Hin. inversion Hin. congruence.
Qed.

(** ** Close *)

Lemma ModClose_eq (w : World) :
  ModClose w =
  (snd (mod_close (inst (store w))),
   {| store := {| inst := fst (mod_close (inst (store w))); state := state (store w) |};
      trace := trace w ++ [EvModClose] |}).
Proof. unfold ModClose. destruct (mod_close (inst (store w))); reflexivity. Qed.

(** C8. [Close] twice. The first [Close] of an initialized session calls
    the guest's [dash_destroy] once, whatever that call answers goes on to
    release the module, and leaves [initialized] false. The second [Close]
    makes no guest call (its only request to the engine is the module
    release, whose answer it returns), leaves the session record and the
    checkpoint table as the first left them, and returns. *)
Theorem Close_twice (d : Dash) (w : World) :
  initialized d = true ->
  forall e1 d1 w1 e2 d2 w2,
    Close d w = ((e1, d1), w1) ->
    Close d1 w1 = ((e2, d2), w2) ->
    (initialized d1 = false /\
     exists res,
       trace w1 = trace w ++ [EvCall ExportDashDestroy [] res; EvModClose] /\
       e1 = snd (mod_close (inst (fst (guest_call ExportDashDestroy [] (store w)))))) /\
    (d2 = d1 /\
     trace w2 = trace w1 ++ [EvModClose] /\
     filter is_destroy (trace w2) = filter is_destroy (trace w1) /\
     filter is_guest_call (trace w2) = filter is_guest_call (trace w1) /\
     state (store w2) = state (store w1) /\
     inst (store w2) = fst (mod_close (inst (store w1))) /\
     e2 = snd (mod_close (inst (store w1)))).
Proof.
  intros Hinit e1 d1 w1 e2 d2 w2 H1 H2.
  unfold Close, bind, ret in H1. rewrite Hinit, Call_eq, ModClose_eq in H1.
  cbn [store trace] in H1. inversion H1; subst e1 d1 w1; clear H1.
  unfold Close, bind, ret in H2. cbn [initialized set_initialized] in H2.
  rewrite ModClose_eq in H2. cbn [store trace inst state] in H2.
  inversion H2; subst e2 d2 w2; clear H2.
  cbn [store trace inst state initialized set_initialized].
  split.
  - split; [reflexivity |]. eexists. rewrite <- app_assoc. split; reflexivity.
  - repeat split; try reflexivity;
      rewrite filter_app; cbn; now rewrite app_nil_r.
Qed.

(** ** The host imports *)

(** The checkpoint a capture stores. *)
Lemma setjmpHost_eq (bufPtr : Z) (s : Store) :
  exists shadow,
    setjmpHost bufPtr s =
    ({| inst := inst (set_memory s
                        (fst (Memory.WriteUint64Le (memory (inst s)) bufPtr
                                (len (checkpoints (state s))))));
        state := {| checkpoints :=
                      checkpoints (state s)
                        ++ [{| snapshot := take_snapshot (inst s);
                               stackPointer := uint32 (stack_pointer (inst s));
                               cstack := shadow |}] |} |},
     Returns 0) /\
    ((uint32 (heap_base (inst s)) <= uint32 (stack_pointer (inst s)) \/
      Memory.Read (memory (inst s)) (uint32 (stack_pointer (inst s)))
        (uint32 (uint32 (heap_base (inst s)) - uint32 (stack_pointer (inst s)))) = None) ->
     shadow = []).
Proof.
  unfold setjmpHost.
  set (sp := uint32 (stack_pointer (inst s))).
  set (heapBase := uint32 (heap_base (inst s))).
  set (shadow := if sp <? heapBase
                 then match Memory.Read (memory (inst s)) sp (uint32 (heapBase - sp)) with
                      | Some view => view
                      | None => []
                      end
                 else []).
  exists shadow. split.
  - unfold Memory.WriteUint64Le.
    rewrite (le_split_mod (len (checkpoints (state s))) 8).
    change (2 ^ (Z.of_nat 8 * 8)) with (2 ^ 64). fold (uint64 (len (checkpoints (state s)))).
    destruct (Memory.Write (memory (inst s)) bufPtr
                (le_split 8 (uint64 (len (checkpoints (state s)))))); reflexivity.
  - unfold shadow. intros [Hge | Hnone].
    + destruct (Z.ltb_spec sp heapBase); [lia | reflexivity].
    + rewrite Hnone. destruct (sp <? heapBase); reflexivity.
Qed.

Lemma WriteUint64Le_Read (m : Memory.t) (bufPtr v : Z) :
  jmp_buf_in m bufPtr ->
  Memory.Read (fst (Memory.WriteUint64Le m bufPtr v)) bufPtr 8 = Some (le_split 8 v).
Proof.
  intros [Hpos Hfit]. unfold Memory.WriteUint64Le.
  destruct (Memory.Write m bufPtr (le_split 8 v)) as [m' ok] eqn:Hw. cbn [fst].
  destruct (Write_inv _ _ _ _ _ Hw) as [(-> & _) | (_ & Hout & _)].
  - apply (Read_Write m m' bufPtr (le_split 8 v) Hpos Hw).
  - unfold len in Hout. rewrite length_le_split in Hout. lia.
Qed.

Lemma WriteUint64Le_ReadUint64Le (m : Memory.t) (bufPtr v : Z) :
  jmp_buf_in m bufPtr ->
  Memory.ReadUint64Le (fst (Memory.WriteUint64Le m bufPtr v)) bufPtr = (uint64 v, true).
Proof.
  intros Hin. unfold Memory.ReadUint64Le. rewrite (WriteUint64Le_Read m bufPtr v Hin).
  rewrite le_combine_split. reflexivity.
Qed.

(** C3. A capture on a table of [n] checkpoints returns 0 and appends one
    checkpoint, which gets the handle [n]; the memory afterwards is the
    memory after [WriteUint64Le(bufPtr, n)], so that the 8 bytes of a
    jump buffer lying in memory are the little-endian bytes of [n]; the
    globals and the rest of the instance are untouched. *)
Theorem setjmpHost_appends (bufPtr : Z) (s : Store) :
  exists cp,
    snd (setjmpHost bufPtr s) = Returns 0 /\
    checkpoints (state (fst (setjmpHost bufPtr s))) = checkpoints (state s) ++ [cp] /\
    nth_error (checkpoints (state (fst (setjmpHost bufPtr s))))
      (List.length (checkpoints (state s))) = Some cp /\
    snapshot cp = take_snapshot (inst s) /\
    stackPointer cp = uint32 (stack_pointer (inst s)) /\
    memory (inst (fst (setjmpHost bufPtr s))) =
      fst (Memory.WriteUint64Le (memory (inst s)) bufPtr (len (checkpoints (state s)))) /\
    (jmp_buf_in (memory (inst s)) bufPtr ->
     Memory.Read (memory (inst (fst (setjmpHost bufPtr s)))) bufPtr 8
       = Some (le_split 8 (len (checkpoints (state s))))) /\
    stack_pointer (inst (fst (setjmpHost bufPtr s))) = stack_pointer (inst s) /\
    heap_base (inst (fst (setjmpHost bufPtr s))) = heap_base (inst s) /\
    guest (inst (fst (setjmpHost bufPtr s))) = guest (inst s).
Proof.
  destruct (setjmpHost_eq bufPtr s) as (shadow & Heq & _). rewrite Heq.
  cbn [fst snd state checkpoints inst set_memory memory stack_pointer heap_base guest].
  eexists. split; [reflexivity |]. split; [reflexivity |].
  split; [now rewrite nth_error_app2, Nat.sub_diag by lia |].
  cbn [snapshot stackPointer]. repeat split; try reflexivity.
  apply WriteUint64Le_Read.
Qed.

(** C10. A capture that cannot copy the shadow stack (the stack pointer is
    not below the heap base, or the region is not readable) still returns
    0, still appends the checkpoint, with an empty [cstack] and the current
    stack pointer, and still makes the write of the index to the jump
    buffer. *)
Theorem setjmpHost_without_shadow (bufPtr : Z) (s : Store) :
  uint32 (heap_base (inst s)) <= uint32 (stack_pointer (inst s)) \/
  Memory.Read (memory (inst s)) (uint32 (stack_pointer (inst s)))
    (uint32 (uint32 (heap_base (inst s)) - uint32 (stack_pointer (inst s)))) = None ->
  snd (setjmpHost bufPtr s) = Returns 0 /\
  checkpoints (state (fst (setjmpHost bufPtr s))) =
    checkpoints (state s)
      ++ [{| snapshot := take_snapshot (inst s);
             stackPointer := uint32 (stack_pointer (inst s));
             cstack := [] |}] /\
  memory (inst (fst (setjmpHost bufPtr s))) =
    fst (Memory.WriteUint64Le (memory (inst s)) bufPtr (len (checkpoints (state s)))) /\
  (jmp_buf_in (memory (inst s)) bufPtr ->
   Memory.ReadUint64Le (memory (inst (fst (setjmpHost bufPtr s)))) bufPtr
     = (uint64 (len (checkpoints (state s))), true)).
Proof.
  intros Hcase.
  destruct (setjmpHost_eq bufPtr s) as (shadow & Heq & Hempty). rewrite Heq.
  rewrite (Hempty Hcase).
  cbn [fst snd state checkpoints inst set_memory memory].
  repeat split. apply WriteUint64Le_ReadUint64Le.
Qed.

Lemma longjmpHost_valid (bufPtr val : Z) (s : Store) (cp : checkpoint Snapshot) :
  nth_error (checkpoints (state s))
    (Z.to_nat (fst (Memory.ReadUint64Le (memory (inst s)) bufPtr))) = Some cp ->
  snd (longjmpHost bufPtr val s)
  = Restores (snapshot cp) [uint64 (uint32 (if val =? 0 then 1 else val))].
Proof.
  unfold longjmpHost.
  destruct (Memory.ReadUint64Le (memory (inst s)) bufPtr) as [idx ok]. cbn [fst].
  intros ->. reflexivity.
Qed.

(** A capture followed by a restore through the same jump buffer resumes
    that capture: the snapshot handed to [Restore] is the one the capture
    took. *)
Lemma capture_then_restore (bufPtr val : Z) (s : Store) :
  jmp_buf_in (memory (inst s)) bufPtr ->
  len (checkpoints (state s)) < 2 ^ 64 ->
  snd (longjmpHost bufPtr val (fst (setjmpHost bufPtr s)))
  = Restores (take_snapshot (inst s)) [uint64 (uint32 (if val =? 0 then 1 else val))].
Proof.
  intros Hbuf Hn.
  destruct (setjmpHost_eq bufPtr s) as (shadow & Heq & _). rewrite Heq. cbn [fst].
  set (cp := {| snapshot := take_snapshot (inst s);
                stackPointer := uint32 (stack_pointer (inst s));
                cstack := shadow |}).
  change (take_snapshot (inst s)) with (snapshot cp).
  apply longjmpHost_valid.
  cbn [inst state checkpoints set_memory memory].
  rewrite (WriteUint64Le_ReadUint64Le _ _ _ Hbuf). cbn [fst].
  rewrite uint64_small by (pose proof (len_nonneg (checkpoints (state s))); lia).
  unfold len. rewrite Nat2Z.id, nth_error_app2, Nat.sub_diag by lia. reflexivity.
Qed.

(** C2. A restore through a jump buffer that holds a valid index hands
    control to the engine's [Restore] on the snapshot of that checkpoint,
    so the capture site sees 1 for the value 0 and [val] for any other
    [int32] value; the call does not return to its caller (and does not
    panic). *)
Theorem longjmpHost_resumes_capture (bufPtr val idx : Z) (s : Store)
    (cp : checkpoint Snapshot) :
  - 2 ^ 31 <= val < 2 ^ 31 ->
  Memory.ReadUint64Le (memory (inst s)) bufPtr = (idx, true) ->
  nth_error (checkpoints (state s)) (Z.to_nat idx) = Some cp ->
  exists ret,
    snd (longjmpHost bufPtr val s) = Restores (snapshot cp) ret /\
    observed (snd (longjmpHost bufPtr val s)) = Some (if val =? 0 then 1 else val) /\
    (forall r, snd (longjmpHost bufPtr val s) <> Returns r) /\
    (forall msg, snd (longjmpHost bufPtr val s) <> Panics msg).
Proof.
  intros Hval Hread Hcp.
  rewrite (longjmpHost_valid bufPtr val s cp) by (rewrite Hread; exact Hcp).
  eexists. split; [reflexivity |]. split; [| split; discriminate].
  cbn [observed]. f_equal. apply int32_of_uint32.
  destruct (Z.eqb_spec val 0); lia.
Qed.

(** C7. A restore whose jump buffer yields an index that is not below the
    length of the table panics on the slice access: nothing is restored,
    the stack-pointer global, guest memory and the table are as before,
    and the import neither returns nor reaches [Restore]. *)
Theorem longjmpHost_invalid_index (bufPtr val : Z) (s : Store) :
  len (checkpoints (state s)) <= fst (Memory.ReadUint64Le (memory (inst s)) bufPtr) ->
  fst (longjmpHost bufPtr val s) = s /\
  (exists msg, snd (longjmpHost bufPtr val s) = Panics msg) /\
  (forall r, snd (longjmpHost bufPtr val s) <> Returns r) /\
  (forall snap ret, snd (longjmpHost bufPtr val s) <> Restores snap ret).
Proof.
  intros Hidx. unfold longjmpHost.
  destruct (Memory.ReadUint64Le (memory (inst s)) bufPtr) as [idx ok]. cbn [fst] in Hidx.
  assert (Hnone : nth_error (checkpoints (state s)) (Z.to_nat idx) = None).
  { apply nth_error_None. unfold len in Hidx. lia. }
  rewrite Hnone. cbn [fst snd].
  split; [reflexivity |]. split; [eauto |]. split; discriminate.
Qed.

(** ** GetVar and the null address *)

Lemma seg_unique {A : Type} (tr seg seg' : list A) :
  tr ++ seg = tr ++ seg' -> seg = seg'.
Proof. apply app_inv_head. Qed.

(** C4, as the code has it. The null-address case is [GetVar]'s: when the
    guest's [dash_getvar] answers the null address, [GetVar] returns the
    empty string and no error without scanning memory, whatever memory
    holds (and whatever the fuel of the scan). [readCString] itself has no
    such case: from address 0 it scans like from any other address, and its
    result is empty exactly when address 0 is unreadable or holds a zero
    byte. *)
Theorem GetVar_null_address (fuel : nat) (d : Dash) (name : gostring) (w : World) :
  (forall seg params r,
      trace (snd (GetVar fuel d name w)) = trace w ++ seg ->
      In (EvCall ExportDashGetVar params (CallOk r)) seg ->
      uint32 r = 0 ->
      fst (GetVar fuel d name w) = Some ([], None)) /\
  (forall mem : Memory.t,
      readCString (S fuel) mem 0 = Some [] <->
      (Memory.ReadByte mem 0 = None \/ Memory.ReadByte mem 0 = Some Byte.x00)).
Proof.
  split; [| intros mem; apply readCString_null_empty_iff].
  intros seg params r. unfold GetVar.
  destruct (initialized d); cbn [negb];
    [| unfold ret; cbn [fst snd]; intros Htr Hin _;
       rewrite <- (app_nil_r (trace w)) in Htr at 1;
       apply seg_unique in Htr; subst seg; destruct Hin].
  destruct (dashGetVar d); cbn [negb];
    [| unfold ret; cbn [fst snd]; intros Htr Hin _;
       rewrite <- (app_nil_r (trace w)) in Htr at 1;
       apply seg_unique in Htr; subst seg; destruct Hin].
  unfold bind.
  destruct (allocString name w) as [[namePtr err] w1] eqn:Halloc. cbn [fst snd].
  destruct err as [e |].
  - destruct (allocString_err _ _ _ _ _ Halloc) as (seg1 & Htr1 & _ & Hmf & _).
    unfold ret. cbn [fst snd]. rewrite Htr1. intros Htr Hin _.
    apply seg_unique in Htr. subst seg.
    rewrite forallb_forall in Hmf. apply Hmf in Hin. discriminate.
  - destruct (allocString_ok _ _ _ _ Halloc) as (r0 & _ & _ & Hgood & _ & Htr1).
    rewrite Call_eq.
    set (res := snd (guest_call ExportDashGetVar [uint64 namePtr] (store w1))).
    assert (Hshape : forall k : M (option (gostring * option string)),
               (forall w0, k w0 = (fst (k w0), w0)) ->
               forall w3,
                 trace w3 = trace w1 ++ [EvCall ExportDashGetVar [uint64 namePtr] res] ->
                 exists fres,
                   trace (snd (let (_, w') := freePtr namePtr w3 in k w'))
                   = trace w ++ [EvCall ExportMalloc [uint64 (len name + 1)] (CallOk r0);
                                 EvCall ExportDashGetVar [uint64 namePtr] res;
                                 EvCall ExportFree [namePtr] fres]).
    { intros k Hk w3 Hw3. destruct (freePtr_good namePtr w3 Hgood) as [fres Hfree].
      exists fres. rewrite Hfree, Hk. cbn [snd trace].
      rewrite Hw3, Htr1, <- !app_assoc. reflexivity. }
    assert (Hres : forall seg0 fres,
               seg0 = [EvCall ExportMalloc [uint64 (len name + 1)] (CallOk r0);
                       EvCall ExportDashGetVar [uint64 namePtr] res;
                       EvCall ExportFree [namePtr] fres] ->
               In (EvCall ExportDashGetVar params (CallOk r)) seg0 -> res = CallOk r).
    { intros seg0 fres -> [H | [H | [H | []]]]; inversion H. reflexivity. }
    clearbody res. destruct res as [e | r1].
    + match goal with
      | |- context [freePtr namePtr ?w3] =>
          destruct (Hshape (ret (Some ([], Some e))) ltac:(reflexivity) w3 eq_refl)
            as [fres Htr3]
      end.
      unfold bind. intros Htr Hin _.
      pose proof (eq_trans (eq_sym Htr3) Htr) as Heq.
      apply seg_unique in Heq. symmetry in Heq.
      apply (Hres _ _ Heq) in Hin. discriminate.
    + destruct (Z.eqb_spec (uint32 r1) 0) as [Hz | Hnz].
      * intros _ _ _. unfold bind.
        match goal with
        | |- context [freePtr namePtr ?w3] =>
            destruct (freePtr_good namePtr w3 Hgood) as [fres Hfree]; rewrite Hfree
        end.
        reflexivity.
      * cbn [store].
        match goal with
        | |- context [freePtr namePtr ?w3] =>
            destruct (Hshape
                        (ret (match readCString fuel (memory (inst (store w3))) (uint32 r1) with
                              | Some s => Some (s, None)
                              | None => None
                              end)) ltac:(reflexivity) w3 eq_refl)
              as [fres Htr3]
        end.
        unfold bind. intros Htr Hin Hzero.
        pose proof (eq_trans (eq_sym Htr3) Htr) as Heq.
        apply seg_unique in Heq. symmetry in Heq.
        apply (Hres _ _ Heq) in Hin. inversion Hin. congruence.
Qed.

End Proofs.

(** * The statements at work on the small engine *)

(** C1 on the small engine: "hi" is allocated at address 16 and read back. *)
Lemma readCString_allocString_witness :
  readCString 3
    (memory (inst (store (snd (allocString Demo.hello (Demo.world 8 0 []))))))
    16 = Some Demo.hello.
Proof.
  apply (readCString_allocString (E := Demo.engine) Demo.hello (Demo.world 8 0 [])).
  - intros [H | [H | []]]; discriminate H.
  - reflexivity.
  - unfold wasm32. vm_compute. discriminate.
  - cbn. lia.
Defined.

(** C2 on the small engine: after a capture through the jump buffer at
    address 0, a restore with 0 makes the capture site see 1, and a restore
    with 5 makes it see 5. *)
Lemma longjmpHost_resumes_capture_witness :
  observed (snd (longjmpHost 0 0 (fst (setjmpHost 0 (store (Demo.world 8 0 []))))))
    = Some 1 /\
  observed (snd (longjmpHost 0 5 (fst (setjmpHost 0 (store (Demo.world 8 0 []))))))
    = Some 5.
Proof.
  split.
  - destruct (longjmpHost_resumes_capture 0 0 0
                (fst (setjmpHost 0 (store (Demo.world 8 0 []))))
                {| snapshot := 64%nat; stackPointer := 8; cstack := repeat Byte.x07 8 |})
      as (ret & _ & Hobs & _).
    + lia.
    + reflexivity.
    + reflexivity.
    + exact Hobs.
  - destruct (longjmpHost_resumes_capture 0 5 0
                (fst (setjmpHost 0 (store (Demo.world 8 0 []))))
                {| snapshot := 64%nat; stackPointer := 8; cstack := repeat Byte.x07 8 |})
      as (ret & _ & Hobs & _).
    + lia.
    + reflexivity.
    + reflexivity.
    + exact Hobs.
Defined.

(** C3 on the small engine: with one checkpoint in the table, the capture
    stores handle 1 in the jump buffer at address 8. *)
Lemma setjmpHost_appends_witness :
  Memory.Read
    (memory (inst (fst (setjmpHost 8
       (store (Demo.world 8 0 [{| snapshot := 1%nat; stackPointer := 8; cstack := [] |}]))))))
    8 8
  = Some [Byte.x01; Byte.x00; Byte.x00; Byte.x00; Byte.x00; Byte.x00; Byte.x00; Byte.x00].
Proof.
  destruct (setjmpHost_appends (E := Demo.engine) 8
              (store (Demo.world 8 0 [{| snapshot := 1%nat; stackPointer := 8; cstack := [] |}])))
    as (cp & _ & _ & _ & _ & _ & _ & Hread & _).
  apply Hread. unfold jmp_buf_in. vm_compute. split; discriminate.
Defined.

(** C5 on the small engine. *)
Lemma initialization_guards_witness :
  Eval Demo.fresh Demo.hello (Demo.world 8 0 [])
    = ((-1, Some "dash not initialized"%string), Demo.world 8 0 []) /\
  Init (set_initialized Demo.fresh true) [Demo.hello] (Demo.world 8 0 [])
    = ((Some "dash already initialized"%string, set_initialized Demo.fresh true),
       Demo.world 8 0 []).
Proof.
  split.
  - apply (proj1 (initialization_guards (E := Demo.engine) Demo.fresh) eq_refl
             (Demo.world 8 0 []) Demo.hello Demo.hello Demo.hello 0%nat).
  - apply (proj2 (proj2 (initialization_guards (E := Demo.engine)
                           (set_initialized Demo.fresh true))) eq_refl).
Defined.

(** C6 on the small engine: an [Init] with two arguments. *)
Lemma Init_releases_allocations_witness :
  exists seg,
    trace (snd (Init Demo.fresh [Demo.hello; Demo.hello] (Demo.world 8 0 []))) = seg /\
    Permutation (freed seg) (allocated seg).
Proof.
  destruct (Init_releases_allocations (E := Demo.engine) Demo.fresh
              [Demo.hello; Demo.hello] (Demo.world 8 0 []))
    as (seg & Htr & Hperm & _).
  exists seg. split; [exact Htr | exact Hperm].
Defined.

(** C7 on the small engine: an empty table, and a jump buffer holding 0. *)
Lemma longjmpHost_invalid_index_witness :
  fst (longjmpHost 0 3 (store (Demo.world 8 0 []))) = store (Demo.world 8 0 []).
Proof.
  apply (longjmpHost_invalid_index 0 3 (store (Demo.world 8 0 []))).
  vm_compute. discriminate.
Defined.

(** C8 on the small engine: the calls of two [Close] in a row. *)
Lemma Close_twice_witness :
  trace (snd (Close Demo.fresh
                (snd (Close (set_initialized Demo.fresh true) (Demo.world 8 0 [])))))
  = [EvCall ExportDashDestroy [] (CallOk 0); EvModClose; EvModClose].
Proof.
  destruct (Close_twice (E := Demo.engine) (set_initialized Demo.fresh true)
              (Demo.world 8 0 []) eq_refl
              None Demo.fresh
              (snd (Close (set_initialized Demo.fresh true) (Demo.world 8 0 [])))
              None Demo.fresh
              (snd (Close Demo.fresh
                      (snd (Close (set_initialized Demo.fresh true) (Demo.world 8 0 []))))))
    as [_ (_ & Htr & _)].
  - reflexivity.
  - reflexivity.
  - exact Htr.
Defined.

(** C9 on the small engine: the guest's [dash_init] answers 1. *)
Lemma Init_error_keeps_uninitialized_witness :
  initialized (snd (fst (Init Demo.fresh [Demo.hello] (Demo.world 8 1 [])))) = false.
Proof.
  destruct (Init_error_keeps_uninitialized (E := Demo.engine) Demo.fresh [Demo.hello]
              (Demo.world 8 1 []) eq_refl
              (Some "dash_init returned error"%string) Demo.fresh
              (snd (Init Demo.fresh [Demo.hello] (Demo.world 8 1 []))))
    as (Herr & _).
  - reflexivity.
  - apply Herr. discriminate.
Defined.

(** C10 on the small engine: the stack pointer is at the heap base. *)
Lemma setjmpHost_without_shadow_witness :
  checkpoints (state (fst (setjmpHost 0 (store (Demo.world 16 0 [])))))
  = [{| snapshot := 64%nat; stackPointer := 16; cstack := [] |}].
Proof.
  apply (setjmpHost_without_shadow (E := Demo.engine) 0 (store (Demo.world 16 0 []))).
  left. vm_compute. discriminate.
Defined.

(** C4: [readCString] applied to the null address returns what memory holds
    there, here "a". *)
Lemma readCString_null_scans_memory :
  readCString 2 [Byte.x61; Byte.x00] 0 = Some [Byte.x61] /\
  forall fuel : nat, readCString fuel [Byte.x61; Byte.x00] 0 <> Some [].
Proof.
  split; [reflexivity |].
  intros [| [| fuel]]; [discriminate | discriminate |].
  change (readCString (S (S fuel)) [Byte.x61; Byte.x00] 0) with (Some [Byte.x61]).
  discriminate.
Qed.

(** C4, amended, on the small engine: [dash_getvar] answers null. *)
Lemma GetVar_null_address_witness :
  fst (GetVar 0 (set_initialized Demo.fresh true) Demo.hello (Demo.world 8 0 []))
  = Some ([], None).
Proof.
  apply (proj1 (GetVar_null_address (E := Demo.engine) 0 (set_initialized Demo.fresh true)
                  Demo.hello (Demo.world 8 0 []))
           [EvCall ExportMalloc [3] (CallOk 16);
            EvCall ExportDashGetVar [16] (CallOk 0);
            EvCall ExportFree [16] (CallOk 0)]
           [16] 0).
  - reflexivity.
  - right. left. reflexivity.
  - reflexivity.
Defined.

(** * Sample runs *)

(** An [Init] with two arguments: three allocations, the call, three
    releases. *)
Example Init_two_arguments :
  Init Demo.fresh [Demo.hello; Demo.hello] (Demo.world 8 0 []) =
  ((None, set_initialized Demo.fresh true),
   {| store := store (snd (Init Demo.fresh [Demo.hello; Demo.hello] (Demo.world 8 0 [])));
      trace := [EvCall ExportMalloc [3] (CallOk 16);
                EvCall ExportMalloc [3] (CallOk 19);
                EvCall ExportMalloc [8] (CallOk 22);
                EvCall ExportDashInit [2; 22] (CallOk 0);
                EvCall ExportFree [22] (CallOk 0);
                EvCall ExportFree [16] (CallOk 0);
                EvCall ExportFree [19] (CallOk 0)] |}).
Proof. reflexivity. Qed.

(** The second argument does not fit: the first one is released and the
    guest's [dash_init] is never called. *)
Example Init_second_allocation_fails :
  fst (Init Demo.fresh [Demo.hello; repeat Byte.x01 50] (Demo.world 8 0 []))
    = (Some "malloc returned null"%string, Demo.fresh) /\
  trace (snd (Init Demo.fresh [Demo.hello; repeat Byte.x01 50] (Demo.world 8 0 [])))
    = [EvCall ExportMalloc [3] (CallOk 16);
       EvCall ExportMalloc [51] (CallOk 0);
       EvCall ExportFree [16] (CallOk 0)].
Proof. split; reflexivity. Qed.

(** With no arguments [Init] passes the single argument "dash". *)
Example Init_default_arguments :
  trace (snd (Init Demo.fresh [] (Demo.world 8 0 [])))
    = [EvCall ExportMalloc [5] (CallOk 16);
       EvCall ExportMalloc [4] (CallOk 21);
       EvCall ExportDashInit [1; 21] (CallOk 0);
       EvCall ExportFree [21] (CallOk 0);
       EvCall ExportFree [16] (CallOk 0)] /\
  Memory.Read (memory (inst (store (snd (Init Demo.fresh [] (Demo.world 8 0 [])))))) 16 9
    = Some [Byte.x64; Byte.x61; Byte.x73; Byte.x68; Byte.x00;
            Byte.x10; Byte.x00; Byte.x00; Byte.x00].
Proof. split; reflexivity. Qed.

(** A jump buffer outside memory: the capture is recorded, memory is as
    before. *)
Example setjmpHost_buffer_outside_memory :
  memory (inst (fst (setjmpHost 60 (store (Demo.world 8 0 [])))))
    = memory (inst (store (Demo.world 8 0 []))) /\
  List.length (checkpoints (state (fst (setjmpHost 60 (store (Demo.world 8 0 [])))))) = 1%nat.
Proof. split; reflexivity. Qed.

(** * More of the package *)

(** ** Memory accessors, continued *)

Lemma Read_inv (m : Memory.t) (offset byteCount : Z) (bs : list byte) :
  Memory.Read m offset byteCount = Some bs ->
  offset + byteCount <= Memory.Size m /\
  bs = firstn (Z.to_nat byteCount) (skipn (Z.to_nat offset) m).
Proof.
  unfold Memory.Read, Memory.hasSize.
  destruct (Z.leb_spec (offset + byteCount) (Memory.Size m)) as [Hfit | Hfit];
    intros Hr; inversion Hr; auto.
Qed.

Lemma Read_fits (m : Memory.t) (offset byteCount : Z) :
  offset + byteCount <= Memory.Size m ->
  Memory.Read m offset byteCount
  = Some (firstn (Z.to_nat byteCount) (skipn (Z.to_nat offset) m)).
Proof.
  intros Hfit. unfold Memory.Read, Memory.hasSize.
  destruct (Z.leb_spec (offset + byteCount) (Memory.Size m)); [reflexivity | lia].
Qed.

Lemma Read_length (m : Memory.t) (offset byteCount : Z) (bs : list byte) :
  0 <= offset -> 0 <= byteCount ->
  Memory.Read m offset byteCount = Some bs -> len bs = byteCount.
Proof.
  intros Ho Hc Hr. apply Read_inv in Hr. destruct Hr as [Hfit ->].
  unfold Memory.Size, len in *. rewrite length_firstn, length_skipn. lia.
Qed.

(** A read inside a range that was read: the same bytes. *)
Lemma Read_sub (m m' : Memory.t) (offset byteCount a k : Z) :
  0 <= offset -> offset <= a -> 0 <= k -> a + k <= offset + byteCount ->
  offset + byteCount <= Memory.Size m -> offset + byteCount <= Memory.Size m' ->
  Memory.Read m' offset byteCount = Memory.Read m offset byteCount ->
  Memory.Read m' a k = Memory.Read m a k.
Proof.
  intros Ho Ha Hk Hin Hm Hm' Heq.
  rewrite !Read_fits in Heq by assumption. inversion Heq as [Hbs].
  rewrite !Read_fits by lia. f_equal.
  assert (Hsub : forall l : list byte,
             firstn (Z.to_nat k) (skipn (Z.to_nat a) l)
             = firstn (Z.to_nat k)
                 (skipn (Z.to_nat (a - offset))
                    (firstn (Z.to_nat byteCount) (skipn (Z.to_nat offset) l)))).
  { intros l. rewrite skipn_firstn_comm, firstn_firstn, skipn_skipn.
    replace (Z.to_nat (a - offset) + Z.to_nat offset)%nat with (Z.to_nat a) by lia.
    f_equal. lia. }
  rewrite (Hsub m), (Hsub m'), Hbs. reflexivity.
Qed.

Lemma ReadByte_Write_other (m m' : Memory.t) (offset a : Z) (v : list byte) (ok : bool) :
  0 <= offset -> 0 <= a ->
  Memory.Write m offset v = (m', ok) ->
  a < offset \/ offset + len v <= a ->
  Memory.ReadByte m' a = Memory.ReadByte m a.
Proof.
  intros Ho Ha Hw Hout.
  assert (Hsz : Memory.Size m' = Memory.Size m).
  { pose proof (Write_Size m offset v Ho) as Hs. rewrite Hw in Hs. exact Hs. }
  destruct (Write_inv _ _ _ _ _ Hw) as [(_ & Hfit & Hm') | (_ & _ & ->)]; [| reflexivity].
  unfold Memory.ReadByte, Memory.hasSize. rewrite Hsz.
  destruct (Z.leb_spec (a + 1) (Memory.Size m)) as [Hin | _]; [| reflexivity].
  subst m'. unfold Memory.Size, len in *.
  destruct Hout as [Hlt | Hge].
  - rewrite nth_error_app1 by (rewrite length_firstn; lia).
    rewrite nth_error_firstn.
    destruct (Nat.ltb_spec (Z.to_nat a) (Z.to_nat offset)); [reflexivity | lia].
  - rewrite app_assoc, nth_error_app2 by (rewrite length_app, length_firstn; lia).
    rewrite length_app, length_firstn, nth_error_skipn. f_equal. lia.
Qed.

(** ** The checkpoint table and the shadow stack *)

Section ImportProofs.
Context {Snapshot Guest : Type} {E : Engine Snapshot Guest}.

Local Abbreviation Store := (Store Snapshot Guest).

Lemma longjmpHost_state (bufPtr val : Z) (s : Store) :
  state (fst (longjmpHost bufPtr val s)) = state s.
Proof.
  unfold longjmpHost.
  destruct (Memory.ReadUint64Le (memory (inst s)) bufPtr) as [idx ok].
  destruct (nth_error (checkpoints (state s)) (Z.to_nat idx)) as [cp |]; [| reflexivity].
  cbn [fst]. destruct (0 <? len (cstack cp)); reflexivity.
Qed.

Lemma guest_run_table (steps : list (GuestStep Guest)) :
  forall s : Store,
    exists new,
      checkpoints (state (guest_run steps s)) = checkpoints (state s) ++ new /\
      List.length new = List.length (filter is_setjmp steps).
Proof.
  induction steps as [| st rest IH]; intros s; cbn [guest_run].
  - exists []. now rewrite app_nil_r.
  - destruct st as [bufPtr | bufPtr val | f]; cbn [filter is_setjmp].
    + destruct (setjmpHost_eq bufPtr s) as (shadow & Heq & _). rewrite Heq. cbn [fst].
      match goal with
      | |- context [guest_run rest ?s1] => destruct (IH s1) as (new & Htab & Hlen)
      end.
      cbn [state checkpoints] in Htab.
      rewrite <- app_assoc in Htab. eexists. split; [exact Htab |].
      cbn [app List.length]. now rewrite Hlen.
    + destruct (IH (fst (longjmpHost bufPtr val s))) as (new & Htab & Hlen).
      rewrite longjmpHost_state in Htab. eauto.
    + destruct (IH {| inst := f (inst s); state := state s |}) as (new & Htab & Hlen).
      eauto.
Qed.

(** The table only grows, by one entry for each capture, and an entry never
    changes: whatever the guest does, and however often it captures and
    restores, a handle written into a jump buffer keeps naming the same
    checkpoint. *)
Theorem guest_run_keeps_handles (steps : list (GuestStep Guest)) (s : Store) :
  exists new,
    checkpoints (state (guest_run steps s)) = checkpoints (state s) ++ new /\
    List.length new = List.length (filter is_setjmp steps) /\
    forall (i : nat) (cp : checkpoint Snapshot),
      nth_error (checkpoints (state s)) i = Some cp ->
      nth_error (checkpoints (state (guest_run steps s))) i = Some cp.
Proof.
  destruct (guest_run_table steps s) as (new & Htab & Hlen).
  exists new. split; [exact Htab |]. split; [exact Hlen |].
  intros i cp Hcp. rewrite Htab. rewrite nth_error_app1; [exact Hcp |].
  apply nth_error_Some. congruence.
Qed.

(** The capture with a readable shadow stack. *)
Lemma setjmpHost_captured (bufPtr : Z) (s : Store) :
  uint32 (stack_pointer (inst s)) < uint32 (heap_base (inst s)) ->
  uint32 (heap_base (inst s)) <= Memory.Size (memory (inst s)) ->
  setjmpHost bufPtr s =
  ({| inst := inst (set_memory s
                      (fst (Memory.WriteUint64Le (memory (inst s)) bufPtr
                              (len (checkpoints (state s))))));
      state := {| checkpoints :=
                    checkpoints (state s)
                      ++ [{| snapshot := take_snapshot (inst s);
                             stackPointer := uint32 (stack_pointer (inst s));
                             cstack :=
                               firstn (Z.to_nat (uint32 (heap_base (inst s))
                                                 - uint32 (stack_pointer (inst s))))
                                 (skipn (Z.to_nat (uint32 (stack_pointer (inst s))))
                                    (memory (inst s))) |}] |} |},
   Returns 0).
Proof.
  intros Hlt Hfit. unfold setjmpHost.
  set (sp := uint32 (stack_pointer (inst s))) in *.
  set (heapBase := uint32 (heap_base (inst s))) in *.
  pose proof (uint32_range (stack_pointer (inst s))) as Hsp. fold sp in Hsp.
  pose proof (uint32_range (heap_base (inst s))) as Hhb. fold heapBase in Hhb.
  destruct (Z.ltb_spec sp heapBase); [| lia].
  rewrite (uint32_small (heapBase - sp)) by lia.
  rewrite Read_fits by lia.
  unfold Memory.WriteUint64Le.
  rewrite (le_split_mod (len (checkpoints (state s))) 8).
  change (2 ^ (Z.of_nat 8 * 8)) with (2 ^ 64). fold (uint64 (len (checkpoints (state s)))).
  destruct (Memory.Write (memory (inst s)) bufPtr
              (le_split 8 (uint64 (len (checkpoints (state s)))))); reflexivity.
Qed.

(** A capture whose shadow stack (the bytes from the stack pointer up to
    the heap base) lies in memory stores exactly those bytes, as they are
    when the import is entered, together with the stack pointer. *)
Theorem setjmpHost_captures_shadow_stack (bufPtr : Z) (s : Store) :
  uint32 (stack_pointer (inst s)) < uint32 (heap_base (inst s)) ->
  uint32 (heap_base (inst s)) <= Memory.Size (memory (inst s)) ->
  exists cp,
    nth_error (checkpoints (state (fst (setjmpHost bufPtr s))))
      (List.length (checkpoints (state s))) = Some cp /\
    stackPointer cp = uint32 (stack_pointer (inst s)) /\
    Memory.Read (memory (inst s)) (stackPointer cp)
      (uint32 (heap_base (inst s)) - stackPointer cp) = Some (cstack cp) /\
    len (cstack cp) = uint32 (heap_base (inst s)) - stackPointer cp.
Proof.
  intros Hlt Hfit. rewrite (setjmpHost_captured bufPtr s Hlt Hfit).
  cbn [fst state checkpoints]. eexists. split.
  - rewrite nth_error_app2, Nat.sub_diag by lia. reflexivity.
  - cbn [stackPointer cstack].
    pose proof (uint32_range (stack_pointer (inst s))) as Hsp.
    split; [reflexivity |]. split.
    + apply Read_fits. lia.
    + eapply Read_length; [| | apply Read_fits]; lia.
Qed.

Lemma longjmpHost_store (bufPtr val : Z) (s : Store) (cp : checkpoint Snapshot) :
  nth_error (checkpoints (state s))
    (Z.to_nat (fst (Memory.ReadUint64Le (memory (inst s)) bufPtr))) = Some cp ->
  fst (longjmpHost bufPtr val s) =
  let s1 := set_stack_pointer s (uint64 (stackPointer cp)) in
  if 0 <? len (cstack cp)
  then set_memory s1 (fst (Memory.Write (memory (inst s1)) (stackPointer cp) (cstack cp)))
  else s1.
Proof.
  unfold longjmpHost.
  destruct (Memory.ReadUint64Le (memory (inst s)) bufPtr) as [idx ok]. cbn [fst].
  intros ->. reflexivity.
Qed.

(** A restore through a valid handle: the stack-pointer global is the
    saved one; the saved bytes are back at the saved stack pointer when
    they fit in memory, and otherwise memory is left as it is (the restore
    goes on all the same); no byte outside that range changes, nor do the
    memory size, the heap base and the table. *)
Theorem longjmpHost_restores (bufPtr val : Z) (s : Store) (cp : checkpoint Snapshot) :
  nth_error (checkpoints (state s))
    (Z.to_nat (fst (Memory.ReadUint64Le (memory (inst s)) bufPtr))) = Some cp ->
  0 <= stackPointer cp < 2 ^ 32 ->
  stack_pointer (inst (fst (longjmpHost bufPtr val s))) = stackPointer cp /\
  heap_base (inst (fst (longjmpHost bufPtr val s))) = heap_base (inst s) /\
  state (fst (longjmpHost bufPtr val s)) = state s /\
  Memory.Size (memory (inst (fst (longjmpHost bufPtr val s)))) = Memory.Size (memory (inst s)) /\
  (stackPointer cp + len (cstack cp) <= Memory.Size (memory (inst s)) ->
   Memory.Read (memory (inst (fst (longjmpHost bufPtr val s))))
     (stackPointer cp) (len (cstack cp)) = Some (cstack cp)) /\
  (Memory.Size (memory (inst s)) < stackPointer cp + len (cstack cp) ->
   memory (inst (fst (longjmpHost bufPtr val s))) = memory (inst s)) /\
  (forall a : Z,
      0 <= a -> a < stackPointer cp \/ stackPointer cp + len (cstack cp) <= a ->
      Memory.ReadByte (memory (inst (fst (longjmpHost bufPtr val s)))) a
      = Memory.ReadByte (memory (inst s)) a).
Proof.
  intros Hcp Hsp. rewrite (longjmpHost_store bufPtr val s cp Hcp). cbv zeta.
  rewrite uint64_small by lia.
  destruct (Z.ltb_spec 0 (len (cstack cp))) as [Hpos | Hzero].
  - cbn [set_memory set_stack_pointer inst memory stack_pointer heap_base state].
    destruct (Memory.Write (memory (inst s)) (stackPointer cp) (cstack cp)) as [m' ok] eqn:Hw.
    cbn [fst].
    assert (Hsz : Memory.Size m' = Memory.Size (memory (inst s))).
    { pose proof (Write_Size (memory (inst s)) (stackPointer cp) (cstack cp) (proj1 Hsp)) as Hs.
      rewrite Hw in Hs. exact Hs. }
    repeat split; auto.
    + intros Hfit. destruct (Write_inv _ _ _ _ _ Hw) as [(-> & _) | (_ & Hout & _)]; [| lia].
      apply (Read_Write _ _ _ _ (proj1 Hsp) Hw).
    + intros Hout. destruct (Write_inv _ _ _ _ _ Hw) as [(_ & Hfit & _) | (_ & _ & ->)];
        [lia | reflexivity].
    + intros a Ha Hout.
      apply (ReadByte_Write_other _ _ _ _ _ _ (proj1 Hsp) Ha Hw Hout).
  - cbn [set_stack_pointer inst memory stack_pointer heap_base state].
    pose proof (len_nonneg (cstack cp)) as Hnn.
    assert (Hnil : cstack cp = []).
    { destruct (cstack cp); [reflexivity | unfold len in Hzero; cbn in Hzero; lia]. }
    repeat split; auto.
    intros Hfit. rewrite Hnil in *. change (len (@nil byte)) with 0 in *.
    rewrite Read_fits by lia. reflexivity.
Qed.

Lemma capture_restore_region (bufPtr val : Z) (steps : list (GuestStep Guest)) (s0 : Store) :
  uint32 (stack_pointer (inst s0)) < uint32 (heap_base (inst s0)) ->
  uint32 (heap_base (inst s0)) <= Memory.Size (memory (inst s0)) ->
  fst (Memory.ReadUint64Le
         (memory (inst (guest_run steps (fst (setjmpHost bufPtr s0))))) bufPtr)
    = len (checkpoints (state s0)) ->
  uint32 (heap_base (inst s0))
    <= Memory.Size (memory (inst (guest_run steps (fst (setjmpHost bufPtr s0))))) ->
  snd (longjmpHost bufPtr val (guest_run steps (fst (setjmpHost bufPtr s0))))
    = Restores (take_snapshot (inst s0)) [uint64 (uint32 (if val =? 0 then 1 else val))] /\
  stack_pointer
    (inst (fst (longjmpHost bufPtr val (guest_run steps (fst (setjmpHost bufPtr s0))))))
    = uint32 (stack_pointer (inst s0)) /\
  Memory.Size
    (memory (inst (fst (longjmpHost bufPtr val
                          (guest_run steps (fst (setjmpHost bufPtr s0)))))))
    = Memory.Size (memory (inst (guest_run steps (fst (setjmpHost bufPtr s0))))) /\
  Memory.Read
    (memory (inst (fst (longjmpHost bufPtr val
                          (guest_run steps (fst (setjmpHost bufPtr s0)))))))
    (uint32 (stack_pointer (inst s0)))
    (uint32 (heap_base (inst s0)) - uint32 (stack_pointer (inst s0)))
  = Memory.Read (memory (inst s0)) (uint32 (stack_pointer (inst s0)))
      (uint32 (heap_base (inst s0)) - uint32 (stack_pointer (inst s0))).
Proof.
  intros Hlt Hfit0 Hidx Hfit2.
  pose proof (uint32_range (stack_pointer (inst s0))) as Hsp.
  set (sp := uint32 (stack_pointer (inst s0))) in *.
  set (hb := uint32 (heap_base (inst s0))) in *.
  set (region := firstn (Z.to_nat (hb - sp)) (skipn (Z.to_nat sp) (memory (inst s0)))).
  set (cp := {| snapshot := take_snapshot (inst s0); stackPointer := sp; cstack := region |}).
  set (s2 := guest_run steps (fst (setjmpHost bufPtr s0))) in *.
  assert (Hregion : Memory.Read (memory (inst s0)) sp (hb - sp) = Some region)
    by (apply Read_fits; lia).
  assert (Hlen : len region = hb - sp)
    by (apply (Read_length (memory (inst s0)) sp (hb - sp) region);
        [lia | lia | exact Hregion]).
  assert (Hcp : nth_error (checkpoints (state s2))
                  (Z.to_nat (fst (Memory.ReadUint64Le (memory (inst s2)) bufPtr))) = Some cp).
  { rewrite Hidx. unfold len. rewrite Nat2Z.id.
    destruct (guest_run_table steps (fst (setjmpHost bufPtr s0))) as (new & Htab & _).
    fold s2 in Htab. rewrite Htab.
    rewrite (setjmpHost_captured bufPtr s0 Hlt Hfit0). cbn [fst state checkpoints].
    fold sp hb region cp.
    rewrite <- app_assoc, nth_error_app2, Nat.sub_diag by lia. reflexivity. }
  split; [apply (longjmpHost_valid bufPtr val s2 cp Hcp) |].
  rewrite (longjmpHost_store bufPtr val s2 cp Hcp). cbv zeta.
  cbn [stackPointer cstack cp]. rewrite uint64_small by lia.
  destruct (Z.ltb_spec 0 (len region)); [| lia].
  cbn [set_memory set_stack_pointer inst memory stack_pointer].
  destruct (Memory.Write (memory (inst s2)) sp region) as [m' ok] eqn:Hw. cbn [fst].
  split; [reflexivity |]. split.
  - pose proof (Write_Size (memory (inst s2)) sp region (proj1 Hsp)) as Hs.
    rewrite Hw in Hs. exact Hs.
  - rewrite Hregion, <- Hlen.
    destruct (Write_inv _ _ _ _ _ Hw) as [(-> & _) | (_ & Hout & _)]; [| lia].
    apply (Read_Write _ _ _ _ (proj1 Hsp) Hw).
Qed.

(** Capture, then anything, then restore. When the shadow stack lies in
    memory at the capture and still does at the restore, and the jump
    buffer still holds the handle the capture wrote, the restore resumes
    that capture (its snapshot, with the value normalised), with the stack
    pointer and every byte of the shadow stack as they were on entry to the
    capture, whatever the guest did to them in between. *)
Theorem capture_restore_roundtrip (bufPtr val : Z) (steps : list (GuestStep Guest))
    (s0 : Store) :
  uint32 (stack_pointer (inst s0)) < uint32 (heap_base (inst s0)) ->
  uint32 (heap_base (inst s0)) <= Memory.Size (memory (inst s0)) ->
  fst (Memory.ReadUint64Le
         (memory (inst (guest_run steps (fst (setjmpHost bufPtr s0))))) bufPtr)
    = len (checkpoints (state s0)) ->
  uint32 (heap_base (inst s0))
    <= Memory.Size (memory (inst (guest_run steps (fst (setjmpHost bufPtr s0))))) ->
  snd (longjmpHost bufPtr val (guest_run steps (fst (setjmpHost bufPtr s0))))
    = Restores (take_snapshot (inst s0)) [uint64 (uint32 (if val =? 0 then 1 else val))] /\
  stack_pointer
    (inst (fst (longjmpHost bufPtr val (guest_run steps (fst (setjmpHost bufPtr s0))))))
    = uint32 (stack_pointer (inst s0)) /\
  Memory.Read
    (memory (inst (fst (longjmpHost bufPtr val
                          (guest_run steps (fst (setjmpHost bufPtr s0)))))))
    (uint32 (stack_pointer (inst s0)))
    (uint32 (heap_base (inst s0)) - uint32 (stack_pointer (inst s0)))
  = Memory.Read (memory (inst s0)) (uint32 (stack_pointer (inst s0)))
      (uint32 (heap_base (inst s0)) - uint32 (stack_pointer (inst s0))).
Proof.
  intros Hlt Hfit0 Hidx Hfit2.
  destruct (capture_restore_region bufPtr val steps s0 Hlt Hfit0 Hidx Hfit2)
    as (Hctl & Hsp & _ & Hmem).
  auto.
Qed.

(** The capture copies the shadow stack before it writes the handle. So
    when the jump buffer itself lies in the shadow stack, the restore puts
    the bytes the buffer held before the capture back over the handle: after
    the restore the buffer no longer holds the handle. *)
Theorem restore_overwrites_jump_buffer_in_shadow_stack (bufPtr val : Z)
    (steps : list (GuestStep Guest)) (s0 : Store) :
  uint32 (stack_pointer (inst s0)) <= bufPtr ->
  bufPtr + 8 <= uint32 (heap_base (inst s0)) ->
  uint32 (heap_base (inst s0)) <= Memory.Size (memory (inst s0)) ->
  fst (Memory.ReadUint64Le
         (memory (inst (guest_run steps (fst (setjmpHost bufPtr s0))))) bufPtr)
    = len (checkpoints (state s0)) ->
  uint32 (heap_base (inst s0))
    <= Memory.Size (memory (inst (guest_run steps (fst (setjmpHost bufPtr s0))))) ->
  Memory.Read
    (memory (inst (fst (longjmpHost bufPtr val
                          (guest_run steps (fst (setjmpHost bufPtr s0)))))))
    bufPtr 8
  = Memory.Read (memory (inst s0)) bufPtr 8.
Proof.
  intros Hlo Hhi Hfit0 Hidx Hfit2.
  pose proof (uint32_range (stack_pointer (inst s0))) as Hsp.
  destruct (capture_restore_region bufPtr val steps s0 ltac:(lia) Hfit0 Hidx Hfit2)
    as (_ & _ & Hsize & Hmem).
  apply (Read_sub _ _ (uint32 (stack_pointer (inst s0)))
           (uint32 (heap_base (inst s0)) - uint32 (stack_pointer (inst s0))));
    try lia.
  exact Hmem.
Qed.

End ImportProofs.

(** ** readCString, in full *)

Lemma skipn_nth_error {A : Type} (l : list A) :
  forall (n : nat) (x : A), nth_error l n = Some x -> skipn n l = x :: skipn (S n) l.
Proof.
  induction l as [| h t IH]; intros [| n] x Hn; cbn in Hn; try discriminate.
  - inversion Hn. reflexivity.
  - cbn [skipn]. rewrite (IH n x Hn). reflexivity.
Qed.

Lemma ReadByte_skipn (mem : Memory.t) (a : Z) :
  0 <= a ->
  match Memory.ReadByte mem a with
  | Some b => skipn (Z.to_nat a) mem = b :: skipn (S (Z.to_nat a)) mem
  | None => skipn (Z.to_nat a) mem = []
  end.
Proof.
  intros Ha. unfold Memory.ReadByte, Memory.hasSize, Memory.Size, len.
  destruct (Z.leb_spec (a + 1) (Z.of_nat (List.length mem))) as [Hin | Hout].
  - destruct (nth_error mem (Z.to_nat a)) as [b |] eqn:Hn.
    + now apply skipn_nth_error.
    + apply nth_error_None in Hn. lia.
  - apply skipn_all2. lia.
Qed.

Lemma readCString_loop_upto (fuel : nat) :
  forall (mem : Memory.t) (ptr i : Z) (buf : list byte),
    0 <= ptr -> 0 <= i ->
    ptr + i + len (upto_nul (skipn (Z.to_nat (ptr + i)) mem)) < 2 ^ 32 ->
    (List.length (upto_nul (skipn (Z.to_nat (ptr + i)) mem)) < fuel)%nat ->
    readCString_loop fuel mem ptr i buf
    = Some (buf ++ upto_nul (skipn (Z.to_nat (ptr + i)) mem)).
Proof.
  induction fuel as [| fuel IH]; intros mem ptr i buf Hp Hi Hrange Hfuel; [lia |].
  cbn [readCString_loop].
  pose proof (len_nonneg (upto_nul (skipn (Z.to_nat (ptr + i)) mem))) as Hnn.
  rewrite uint32_small by lia.
  pose proof (ReadByte_skipn mem (ptr + i) ltac:(lia)) as Hrb.
  destruct (Memory.ReadByte mem (ptr + i)) as [b |].
  - rewrite Hrb in *. cbn [upto_nul] in *.
    destruct (Byte.eqb b Byte.x00).
    + now rewrite app_nil_r.
    + replace (S (Z.to_nat (ptr + i))) with (Z.to_nat (ptr + (i + 1))) in * by lia.
      unfold len in Hrange. cbn [List.length] in Hrange, Hfuel.
      rewrite uint32_small by lia.
      rewrite IH; [now rewrite <- app_assoc | lia | lia | unfold len; lia | lia].
  - rewrite Hrb. cbn [upto_nul]. now rewrite app_nil_r.
Qed.

Lemma readCString_loop_no_nul (fuel : nat) :
  forall (mem : Memory.t) (ptr i : Z) (buf r : list byte),
    ~ In Byte.x00 buf ->
    readCString_loop fuel mem ptr i buf = Some r -> ~ In Byte.x00 r.
Proof.
  induction fuel as [| fuel IH]; intros mem ptr i buf r Hbuf Hr; cbn [readCString_loop] in Hr.
  - discriminate.
  - destruct (Memory.ReadByte mem (uint32 (ptr + i))) as [b |].
    + destruct (Byte.eqb b Byte.x00) eqn:Hb.
      * inversion Hr. now subst.
      * apply (IH _ _ _ _ _) in Hr; [exact Hr |].
        intros Hin. apply in_app_or in Hin. destruct Hin as [Hin | [Hin | []]].
        -- now apply Hbuf.
        -- subst b. cbn in Hb. discriminate.
    + inversion Hr. now subst.
Qed.

Lemma upto_nul_length (bs : list byte) : (List.length (upto_nul bs) <= List.length bs)%nat.
Proof.
  induction bs as [| b rest IH]; cbn [upto_nul List.length]; [lia |].
  destruct (Byte.eqb b Byte.x00); cbn [List.length]; lia.
Qed.

Lemma upto_nul_app_nul (s rest : list byte) :
  upto_nul (s ++ Byte.x00 :: rest) = upto_nul s.
Proof.
  induction s as [| b s IH]; cbn [app upto_nul].
  - reflexivity.
  - destruct (Byte.eqb b Byte.x00); [reflexivity | now rewrite IH].
Qed.

(** What [readCString] returns, in a memory smaller than the address space
    (so that the scan cannot wrap around): the bytes from [ptr] up to the
    first zero byte, or up to the end of memory when there is none; nothing
    for an address outside memory. The scan ends: fuel above the length of
    the result is enough. *)
Theorem readCString_spec (fuel : nat) (mem : Memory.t) (ptr : Z) :
  Memory.Size mem < 2 ^ 32 ->
  0 <= ptr < 2 ^ 32 ->
  (List.length (upto_nul (skipn (Z.to_nat ptr) mem)) < fuel)%nat ->
  readCString fuel mem ptr = Some (upto_nul (skipn (Z.to_nat ptr) mem)) /\
  (Memory.Size mem <= ptr -> readCString fuel mem ptr = Some []).
Proof.
  intros Hsize Hptr Hfuel.
  assert (Hres : readCString fuel mem ptr = Some (upto_nul (skipn (Z.to_nat ptr) mem))).
  { unfold readCString.
    rewrite (readCString_loop_upto fuel mem ptr 0 []); rewrite ?Z.add_0_r; try lia.
    - reflexivity.
    - pose proof (upto_nul_length (skipn (Z.to_nat ptr) mem)) as Hle.
      rewrite length_skipn in Hle. unfold Memory.Size, len in *. lia. }
  split; [exact Hres |].
  intros Hout. rewrite Hres, skipn_all2; [reflexivity |].
  unfold Memory.Size, len in Hout. lia.
Qed.

(** [readCString] never returns a string with a zero byte in it. *)
Theorem readCString_no_nul (fuel : nat) (mem : Memory.t) (ptr : Z) (s : gostring) :
  readCString fuel mem ptr = Some s -> ~ In Byte.x00 s.
Proof.
  unfold readCString. apply readCString_loop_no_nul. intros [].
Qed.

(** ** Marshalling *)

Section MarshalProofs.
Context {Snapshot Guest : Type} {E : Engine Snapshot Guest}.

Local Abbreviation World := (World Snapshot Guest).
Local Abbreviation Store := (Store Snapshot Guest).

(** [allocString] with embedded zero bytes: the whole of [s] is stored, and
    reading the address back gives [s] up to its first zero byte. *)
Theorem readCString_allocString_truncates (s : gostring) (w w' : World) (p : Z)
    (fuel : nat) :
  allocString s w = ((p, None), w') ->
  wasm32 (memory (inst (store w'))) ->
  (List.length (upto_nul s) < fuel)%nat ->
  Memory.Read (memory (inst (store w'))) p (len s + 1) = Some (s ++ [Byte.x00]) /\
  readCString fuel (memory (inst (store w'))) p = Some (upto_nul s).
Proof.
  intros Halloc H32 Hfuel.
  destruct (allocString_ok _ _ _ _ Halloc) as (r & _ & _ & [_ Hrange] & Hw & _).
  set (m0 := memory (inst (fst (guest_call ExportMalloc [uint64 (len s + 1)] (store w))))) in *.
  set (m' := memory (inst (store w'))) in *.
  assert (Hread : Memory.Read m' p (len s + 1) = Some (s ++ [Byte.x00])).
  { replace (len s + 1) with (len (s ++ [Byte.x00])) by (rewrite len_app; reflexivity).
    apply (Read_Write m0 m' p _ (proj1 Hrange) Hw). }
  split; [exact Hread |].
  destruct (Read_inv _ _ _ _ Hread) as [Hfit Hbytes].
  assert (Hskip : exists rest, skipn (Z.to_nat p) m' = s ++ Byte.x00 :: rest).
  { exists (skipn (Z.to_nat (len s + 1)) (skipn (Z.to_nat p) m')).
    rewrite <- (firstn_skipn (Z.to_nat (len s + 1)) (skipn (Z.to_nat p) m')) at 1.
    rewrite <- Hbytes, <- app_assoc. reflexivity. }
  destruct Hskip as [rest Hskip].
  unfold readCString.
  pose proof (upto_nul_length s) as Hle. pose proof (len_nonneg s) as Hnn.
  unfold wasm32 in H32.
  rewrite (readCString_loop_upto fuel m' p 0 []); rewrite ?Z.add_0_r, ?Hskip, ?upto_nul_app_nul;
    try lia.
  - reflexivity.
  - unfold len in *. lia.
Qed.

(** A successful [allocString] changes guest memory, as the allocator left
    it, only in the bytes of the new string: the size is the same and every
    byte outside [p, p + len(s) + 1) is the same. *)
Theorem allocString_frame (s : gostring) (w w' : World) (p : Z) :
  allocString s w = ((p, None), w') ->
  Memory.Size (memory (inst (store w')))
  = Memory.Size (memory (inst (fst (guest_call ExportMalloc [uint64 (len s + 1)] (store w))))) /\
  forall a : Z,
    0 <= a -> a < p \/ p + len s + 1 <= a ->
    Memory.ReadByte (memory (inst (store w'))) a
    = Memory.ReadByte
        (memory (inst (fst (guest_call ExportMalloc [uint64 (len s + 1)] (store w))))) a.
Proof.
  intros Halloc.
  destruct (allocString_ok _ _ _ _ Halloc) as (r & _ & _ & [_ Hrange] & Hw & _).
  split.
  - pose proof (Write_Size
                  (memory (inst (fst (guest_call ExportMalloc [uint64 (len s + 1)] (store w)))))
                  p (s ++ [Byte.x00]) (proj1 Hrange)) as Hs.
    rewrite Hw in Hs. exact Hs.
  - intros a Ha Hout. apply (ReadByte_Write_other _ _ _ _ _ _ (proj1 Hrange) Ha Hw).
    rewrite len_app. change (len [Byte.x00]) with 1. lia.
Qed.

(** A failing [allocString] returns the null address and leaves nothing
    allocated: it called the allocator once, and if that returned an
    address (the write of the string is what failed) it passed this address
    to the deallocator, once; it made no other call. *)
Theorem allocString_failure_releases (s : gostring) (w w' : World) (p : Z) (e : string) :
  allocString s w = ((p, Some e), w') ->
  p = 0 /\
  exists res,
    (trace w' = trace w ++ [EvCall ExportMalloc [uint64 (len s + 1)] res] /\
     allocated [EvCall ExportMalloc [uint64 (len s + 1)] res] = []) \/
    (exists a fres,
        trace w' = trace w ++ [EvCall ExportMalloc [uint64 (len s + 1)] res;
                               EvCall ExportFree [a] fres] /\
        allocated [EvCall ExportMalloc [uint64 (len s + 1)] res] = [a] /\
        snd (Memory.Write
               (memory (inst (fst (guest_call ExportMalloc [uint64 (len s + 1)] (store w)))))
               a (s ++ [Byte.x00])) = false).
Proof.
  unfold allocString, bind, ret. rewrite Call_eq.
  destruct (snd (guest_call ExportMalloc [uint64 (len s + 1)] (store w))) as [e0 | r] eqn:Hr.
  - intros H. inversion H. subst. split; [reflexivity |]. eexists. left. cbn [trace]. eauto.
  - destruct (Z.eqb_spec (uint32 r) 0) as [Hz | Hnz].
    + intros H. inversion H. subst. split; [reflexivity |]. eexists. left. cbn [trace].
      split; [reflexivity |]. unfold allocated. cbn. now rewrite Hz.
    + unfold MemWrite. cbn [store trace].
      destruct (Memory.Write _ (uint32 r) (s ++ [Byte.x00])) as [m' ok] eqn:Hw.
      destruct ok; cbn [negb].
      * intros H. inversion H.
      * rewrite Call_eq. intros H. inversion H. subst. cbn [trace store].
        split; [reflexivity |]. eexists. right. exists (uint32 r). eexists.
        rewrite <- app_assoc, uint64_uint32. split; [reflexivity |]. split.
        -- unfold allocated. cbn.
           destruct (Z.eqb_spec (uint32 r) 0); [contradiction | reflexivity].
        -- now rewrite Hw.
Qed.

(** [freePtr] over a slice never passes the null address to the
    deallocator: the addresses released are the non-null entries, in order,
    one call each, and nothing else is called. *)
Theorem freePtrs_skips_null (ptrs : list Z) (w : World) :
  Forall (fun p => 0 <= p < 2 ^ 32) ptrs ->
  exists seg,
    trace (snd (freePtrs ptrs w)) = trace w ++ seg /\
    freed seg = filter (fun p => negb (p =? 0)) ptrs /\
    forallb is_free seg = true /\
    List.length seg = List.length (filter (fun p => negb (p =? 0)) ptrs).
Proof.
  revert w. induction ptrs as [| p ptrs IH]; intros w Hrange; cbn [freePtrs].
  - exists []. cbn. now rewrite app_nil_r.
  - inversion Hrange as [| ? ? Hp Hrest]; subst.
    unfold bind. unfold freePtr at 1. cbn [filter].
    destruct (Z.eqb_spec p 0) as [-> | Hnz]; cbn [negb].
    + unfold ret. apply (IH w Hrest).
    + unfold bind, ret. rewrite Call_eq, uint64_small by lia.
      match goal with
      | |- context [freePtrs ptrs ?w1] => destruct (IH w1 Hrest) as (seg & Htr & Hfr & Hall & Hlen)
      end.
      cbn [trace] in Htr. rewrite <- app_assoc in Htr. cbn [app] in Htr.
      eexists. split; [exact Htr |].
      match goal with
      | |- context [freed (?ev :: seg)] => change (ev :: seg) with ([ev] ++ seg)
      end.
      rewrite freed_app, forallb_app, length_app, Hfr, Hall, Hlen.
      cbn [List.length]. repeat split; reflexivity.
Qed.

Lemma int32_range (z : Z) : - 2 ^ 31 <= int32 z < 2 ^ 31.
Proof.
  unfold int32. pose proof (uint32_range z) as Hr.
  destruct (Z.ltb_spec (uint32 z) (2 ^ 31)); lia.
Qed.

(** The two ways an [Eval] on an initialized session goes. *)
Lemma Eval_cases (d : Dash) (cmd : gostring) (w : World) :
  initialized d = true ->
  (exists e seg,
      fst (Eval d cmd w) = (-1, Some e) /\
      trace (snd (Eval d cmd w)) = trace w ++ seg /\
      freed seg = allocated seg /\ forallb malloc_or_free seg = true /\
      starts_with_malloc seg)
  \/
  (exists r p res fres,
      good_ptr p /\ p = uint32 r /\
      trace (snd (Eval d cmd w))
      = trace w ++ [EvCall ExportMalloc [uint64 (len cmd + 1)] (CallOk r);
                    EvCall ExportDashEval [p; uint64 (len cmd)] res;
                    EvCall ExportFree [p] fres] /\
      fst (Eval d cmd w)
      = match res with
        | CallErr e => (-1, Some (String.append "dash_eval failed: " e))
        | CallOk r0 => (int32 r0, None)
        end).
Proof.
  intros Hinit. unfold Eval. rewrite Hinit. cbn [negb]. unfold bind.
  destruct (allocString cmd w) as [[p err] w1] eqn:Halloc. cbn [fst snd].
  destruct err as [e |].
  - left. destruct (allocString_err _ _ _ _ _ Halloc) as (seg & Htr & Hbal & Hmf & Hst).
    exists e, seg. unfold ret. cbn [fst snd]. auto.
  - right. destruct (allocString_ok _ _ _ _ Halloc) as (r & _ & Hp & Hgood & _ & Htr).
    rewrite Call_eq, (uint64_small p) by (destruct Hgood; lia).
    set (res := snd (guest_call ExportDashEval [p; uint64 (len cmd)] (store w1))).
    assert (Hdone : forall (v : Z * option string) (k : M (Z * option string)),
               k = ret v ->
               forall w3,
                 trace w3 = trace w1 ++ [EvCall ExportDashEval [p; uint64 (len cmd)] res] ->
                 exists fres,
                   (let (_, w') := freePtr p w3 in k w')
                   = (v, {| store := fst (guest_call ExportFree [p] (store w3));
                            trace := trace w
                                       ++ [EvCall ExportMalloc [uint64 (len cmd + 1)] (CallOk r);
                                           EvCall ExportDashEval [p; uint64 (len cmd)] res;
                                           EvCall ExportFree [p] fres] |})).
    { intros v k -> w3 Hw3. destruct (freePtr_good p w3 Hgood) as [fres Hfree].
      exists fres. rewrite Hfree. unfold ret. rewrite Hw3, Htr, <- !app_assoc. reflexivity. }
    exists r, p, res. clearbody res.
    destruct res as [e | r0].
    + match goal with
      | |- context [freePtr p ?w3] =>
          destruct (Hdone (-1, Some (String.append "dash_eval failed: " e)) _ eq_refl w3 eq_refl)
            as [fres Heq]
      end.
      exists fres. unfold bind. rewrite Heq. cbn [fst snd trace]. auto.
    + match goal with
      | |- context [freePtr p ?w3] =>
          destruct (Hdone (int32 r0, None) _ eq_refl w3 eq_refl) as [fres Heq]
      end.
      exists fres. unfold bind. rewrite Heq. cbn [fst snd trace]. auto.
Qed.

(** Every path of [Eval] releases what it allocated. When the guest's
    [dash_eval] is called, it is called once, between the allocation of the
    command string and its release, with the string's address and the
    length of the command in bytes (the terminating zero not counted). *)
Theorem Eval_releases (d : Dash) (cmd : gostring) (w : World) :
  exists seg,
    trace (snd (Eval d cmd w)) = trace w ++ seg /\
    freed seg = allocated seg /\
    (forall params res,
        In (EvCall ExportDashEval params res) seg ->
        exists p r fres,
          good_ptr p /\
          allocated [EvCall ExportMalloc [uint64 (len cmd + 1)] (CallOk r)] = [p] /\
          params = [p; uint64 (len cmd)] /\
          seg = [EvCall ExportMalloc [uint64 (len cmd + 1)] (CallOk r);
                 EvCall ExportDashEval params res;
                 EvCall ExportFree [p] fres]).
Proof.
  destruct (initialized d) eqn:Hinit.
  - destruct (Eval_cases d cmd w Hinit)
      as [(e & seg & _ & Htr & Hbal & Hmf & _) | (r & p & res & fres & Hgood & Hp & Htr & _)].
    + exists seg. split; [exact Htr |]. split; [exact Hbal |].
      intros params res0 Hin. rewrite forallb_forall in Hmf. apply Hmf in Hin. discriminate.
    + eexists. split; [exact Htr |].
      assert (Hal : allocated [EvCall ExportMalloc [uint64 (len cmd + 1)] (CallOk r)] = [p]).
      { unfold allocated. cbn. rewrite <- Hp. destruct Hgood as [Hnz _].
        destruct (Z.eqb_spec p 0); [contradiction | reflexivity]. }
      split.
      * unfold freed, allocated. cbn [flat_map freed_of allocated_of app].
        rewrite <- Hp. destruct Hgood as [Hnz _].
        destruct (Z.eqb_spec p 0); [contradiction | reflexivity].
      * intros params res0 [Hin | [Hin | [Hin | []]]]; try discriminate Hin.
        injection Hin as Hpar Hres0. subst params res0.
        exists p, r, fres. auto.
  - exists []. unfold Eval. rewrite Hinit. cbn [negb]. unfold ret. cbn [snd].
    rewrite app_nil_r. repeat split; auto. intros params res [].
Qed.

(** The status [Eval] returns is an [int32] value; it is -1 whenever an
    error is returned, and otherwise it is the [int32] reading of what the
    guest's [dash_eval] answered, which was called. *)
Theorem Eval_status (d : Dash) (cmd : gostring) (w : World) :
  - 2 ^ 31 <= fst (fst (Eval d cmd w)) < 2 ^ 31 /\
  (snd (fst (Eval d cmd w)) <> None -> fst (fst (Eval d cmd w)) = -1) /\
  (snd (fst (Eval d cmd w)) = None ->
   exists seg params r0,
     trace (snd (Eval d cmd w)) = trace w ++ seg /\
     In (EvCall ExportDashEval params (CallOk r0)) seg /\
     fst (fst (Eval d cmd w)) = int32 r0).
Proof.
  destruct (initialized d) eqn:Hinit.
  - destruct (Eval_cases d cmd w Hinit)
      as [(e & seg & Hres & _) | (r & p & res & fres & _ & _ & Htr & Hres)];
      rewrite Hres.
    + cbn [fst snd]. split; [lia |]. split; [reflexivity | discriminate].
    + destruct res as [e | r0]; cbn [fst snd].
      * split; [lia |]. split; [reflexivity | discriminate].
      * split; [apply int32_range |]. split; [intros H; now contradiction H |].
        intros _. eexists. exists [p; uint64 (len cmd)], r0.
        split; [exact Htr |]. split; [right; left; reflexivity | reflexivity].
  - unfold Eval. rewrite Hinit. cbn [negb]. unfold ret. cbn [fst snd].
    split; [lia |]. split; [reflexivity | discriminate].
Qed.

(** The two ways a [GetVar] goes on an initialized session that has the
    export. *)
Lemma GetVar_cases (fuel : nat) (d : Dash) (name : gostring) (w : World) :
  initialized d = true -> dashGetVar d = true ->
  (exists e seg,
      fst (GetVar fuel d name w) = Some ([], Some e) /\
      trace (snd (GetVar fuel d name w)) = trace w ++ seg /\
      freed seg = allocated seg /\ forallb malloc_or_free seg = true)
  \/
  (exists r p w1 fres,
      allocString name w = ((p, None), w1) /\
      good_ptr p /\ p = uint32 r /\
      trace (snd (GetVar fuel d name w))
      = trace w ++ [EvCall ExportMalloc [uint64 (len name + 1)] (CallOk r);
                    EvCall ExportDashGetVar [p]
                      (snd (guest_call ExportDashGetVar [p] (store w1)));
                    EvCall ExportFree [p] fres] /\
      fst (GetVar fuel d name w)
      = match snd (guest_call ExportDashGetVar [p] (store w1)) with
        | CallErr e => Some ([], Some e)
        | CallOk r0 =>
            if uint32 r0 =? 0 then Some ([], None)
            else match readCString fuel
                         (memory (inst (fst (guest_call ExportDashGetVar [p] (store w1)))))
                         (uint32 r0) with
                 | Some s => Some (s, None)
                 | None => None
                 end
        end).
Proof.
  intros Hinit Hexp. unfold GetVar. rewrite Hinit, Hexp. cbn [negb]. unfold bind.
  destruct (allocString name w) as [[p err] w1] eqn:Halloc. cbn [fst snd].
  destruct err as [e |].
  - left. destruct (allocString_err _ _ _ _ _ Halloc) as (seg & Htr & Hbal & Hmf & _).
    exists e, seg. unfold ret. cbn [fst snd]. auto.
  - right. destruct (allocString_ok _ _ _ _ Halloc) as (r & _ & Hp & Hgood & _ & Htr).
    rewrite Call_eq, (uint64_small p) by (destruct Hgood; lia).
    exists r, p, w1.
    destruct (snd (guest_call ExportDashGetVar [p] (store w1))) as [e | r0];
      [| destruct (Z.eqb_spec (uint32 r0) 0) as [Hz | Hnz]];
      cbv beta zeta; unfold bind;
      match goal with
      | |- context [freePtr p ?w3] =>
          destruct (freePtr_good p w3 Hgood) as [fres Hfree]; rewrite Hfree
      end;
      exists fres; unfold ret; cbn [fst snd trace store inst memory];
      (split; [reflexivity |]); (split; [exact Hgood |]); (split; [exact Hp |]);
      (split; [rewrite Htr, <- !app_assoc; reflexivity | reflexivity]).
Qed.

(** Every path of [GetVar] releases the name it allocated; the guest's
    [dash_getvar] is called at most once, with the address of the name,
    between the allocation and the release. The value is passed by address
    and is never released by the host. *)
Theorem GetVar_releases (fuel : nat) (d : Dash) (name : gostring) (w : World) :
  exists seg,
    trace (snd (GetVar fuel d name w)) = trace w ++ seg /\
    freed seg = allocated seg /\
    (forall params res,
        In (EvCall ExportDashGetVar params res) seg ->
        exists p r fres,
          good_ptr p /\
          allocated [EvCall ExportMalloc [uint64 (len name + 1)] (CallOk r)] = [p] /\
          params = [p] /\
          seg = [EvCall ExportMalloc [uint64 (len name + 1)] (CallOk r);
                 EvCall ExportDashGetVar params res;
                 EvCall ExportFree [p] fres]).
Proof.
  assert (Hnone : forall v,
             GetVar fuel d name w = (v, w) ->
             exists seg,
               trace (snd (GetVar fuel d name w)) = trace w ++ seg /\
               freed seg = allocated seg /\
               (forall params res,
                   In (EvCall ExportDashGetVar params res) seg ->
                   exists p r fres,
                     good_ptr p /\
                     allocated [EvCall ExportMalloc [uint64 (len name + 1)] (CallOk r)] = [p] /\
                     params = [p] /\
                     seg = [EvCall ExportMalloc [uint64 (len name + 1)] (CallOk r);
                            EvCall ExportDashGetVar params res;
                            EvCall ExportFree [p] fres])).
  { intros v Heq. exists []. rewrite Heq. cbn [snd]. rewrite app_nil_r.
    repeat split; auto. intros params res []. }
  destruct (initialized d) eqn:Hinit;
    [| apply (Hnone (Some ([], Some "dash not initialized"%string)));
       unfold GetVar; rewrite Hinit; reflexivity].
  destruct (dashGetVar d) eqn:Hexp;
    [| apply (Hnone (Some ([], Some "dash_getvar not available"%string)));
       unfold GetVar; rewrite Hinit, Hexp; reflexivity].
  clear Hnone.
  destruct (GetVar_cases fuel d name w Hinit Hexp)
    as [(e & seg & _ & Htr & Hbal & Hmf)
       | (r & p & w1 & fres & _ & Hgood & Hp & Htr & _)].
  - exists seg. split; [exact Htr |]. split; [exact Hbal |].
    intros params res0 Hin. rewrite forallb_forall in Hmf. apply Hmf in Hin. discriminate.
  - eexists. split; [exact Htr |].
    assert (Hal : allocated [EvCall ExportMalloc [uint64 (len name + 1)] (CallOk r)] = [p]).
    { unfold allocated. cbn. rewrite <- Hp. destruct Hgood as [Hnz _].
      destruct (Z.eqb_spec p 0); [contradiction | reflexivity]. }
    split.
    + unfold freed, allocated. cbn [flat_map freed_of allocated_of app].
      rewrite <- Hp. destruct Hgood as [Hnz _].
      destruct (Z.eqb_spec p 0); [contradiction | reflexivity].
    + intros params res0 [Hin | [Hin | [Hin | []]]]; try discriminate Hin.
      injection Hin as Hpar Hres0. subst params res0.
      exists p, r, fres. auto.
Qed.

(** [GetVar] returns the C string found at the address the guest's
    [dash_getvar] answered, as guest memory is right after that call and
    before the name is released: the bytes up to the first zero byte (or to
    the end of memory). *)
Theorem GetVar_reads_value (fuel : nat) (d : Dash) (name : gostring) (w w1 : World)
    (p r0 : Z) (s2 : Store) :
  initialized d = true -> dashGetVar d = true ->
  allocString name w = ((p, None), w1) ->
  guest_call ExportDashGetVar [p] (store w1) = (s2, CallOk r0) ->
  uint32 r0 <> 0 ->
  Memory.Size (memory (inst s2)) < 2 ^ 32 ->
  (List.length (upto_nul (skipn (Z.to_nat (uint32 r0)) (memory (inst s2)))) < fuel)%nat ->
  fst (GetVar fuel d name w)
  = Some (upto_nul (skipn (Z.to_nat (uint32 r0)) (memory (inst s2))), None).
Proof.
  intros Hinit Hexp Halloc Hcall Hnz Hsize Hfuel.
  destruct (GetVar_cases fuel d name w Hinit Hexp)
    as [(e & seg & Hres & Htr & _) | (r & p' & w1' & fres & Halloc' & _ & _ & _ & Hres)].
  - exfalso. unfold GetVar in Hres. rewrite Hinit, Hexp in Hres. cbn [negb] in Hres.
    unfold bind in Hres. rewrite Halloc in Hres. cbn [fst snd] in Hres.
    rewrite Call_eq in Hres.
    destruct (allocString_ok _ _ _ _ Halloc) as (r & _ & _ & Hgood & _).
    rewrite (uint64_small p) in Hres by (destruct Hgood; lia).
    rewrite Hcall in Hres. cbn [fst snd] in Hres.
    destruct (Z.eqb_spec (uint32 r0) 0); [contradiction |].
    match type of Hres with
    | context [freePtr p ?w3] => destruct (freePtr_good p w3 Hgood) as [fres Hfree]
    end.
    unfold bind in Hres. rewrite Hfree in Hres. unfold ret in Hres. cbn [fst] in Hres.
    destruct (readCString fuel _ (uint32 r0)); discriminate.
  - rewrite Halloc in Halloc'. inversion Halloc'; subst p' w1'.
    rewrite Hres, Hcall. cbn [fst snd].
    destruct (Z.eqb_spec (uint32 r0) 0); [contradiction |].
    unfold readCString.
    pose proof (uint32_range r0) as Hr.
    pose proof (upto_nul_length (skipn (Z.to_nat (uint32 r0)) (memory (inst s2)))) as Hle.
    rewrite length_skipn in Hle.
    rewrite (readCString_loop_upto fuel (memory (inst s2)) (uint32 r0) 0 []);
      rewrite ?Z.add_0_r; try lia.
    + reflexivity.
    + unfold Memory.Size, len in *. lia.
Qed.

(** What [SetVar] returns once the guest's [dash_setvar] has answered. *)
Lemma SetVar_cases (d : Dash) (name value : gostring) (w : World) :
  initialized d = true -> dashSetVar d = true ->
  (exists e seg,
      fst (SetVar d name value w) = Some e /\
      trace (snd (SetVar d name value w)) = trace w ++ seg /\
      Permutation (freed seg) (allocated seg) /\ forallb malloc_or_free seg = true)
  \/
  (exists r1 r2 np vp res f1 f2,
      good_ptr np /\ good_ptr vp /\ np = uint32 r1 /\ vp = uint32 r2 /\
      trace (snd (SetVar d name value w))
      = trace w ++ [EvCall ExportMalloc [uint64 (len name + 1)] (CallOk r1);
                    EvCall ExportMalloc [uint64 (len value + 1)] (CallOk r2);
                    EvCall ExportDashSetVar [np; vp] res;
                    EvCall ExportFree [vp] f1;
                    EvCall ExportFree [np] f2] /\
      fst (SetVar d name value w)
      = match res with
        | CallErr e => Some e
        | CallOk r0 =>
            if negb (int32 r0 =? 0) then Some "dash_setvar failed"%string else None
        end).
Proof.
  intros Hinit Hexp. unfold SetVar. rewrite Hinit, Hexp. cbn [negb]. unfold bind.
  destruct (allocString name w) as [[np err] w1] eqn:Ha1. cbn [fst snd].
  destruct err as [e |].
  - left. destruct (allocString_err _ _ _ _ _ Ha1) as (seg & Htr & Hbal & Hmf & _).
    exists e, seg. unfold ret. cbn [fst snd]. rewrite Hbal. auto.
  - destruct (allocString_ok _ _ _ _ Ha1) as (r1 & _ & Hnp & Hgood1 & _ & Htr1).
    assert (Hal1 : allocated [EvCall ExportMalloc [uint64 (len name + 1)] (CallOk r1)] = [np]).
    { unfold allocated. cbn. rewrite <- Hnp. destruct Hgood1 as [Hnz _].
      destruct (Z.eqb_spec np 0); [contradiction | reflexivity]. }
    destruct (allocString value w1) as [[vp err] w2] eqn:Ha2. cbn [fst snd].
    destruct err as [e |].
    + left. destruct (allocString_err _ _ _ _ _ Ha2) as (seg2 & Htr2 & Hbal2 & Hmf2 & _).
      destruct (freePtr_good np w2 Hgood1) as [fres Hfree]. rewrite Hfree.
      unfold ret. cbn [fst snd trace].
      exists e, ([EvCall ExportMalloc [uint64 (len name + 1)] (CallOk r1)]
                   ++ seg2 ++ [EvCall ExportFree [np] fres]).
      split; [reflexivity |]. split; [rewrite Htr2, Htr1, <- !app_assoc; reflexivity |].
      rewrite !freed_app, !allocated_app, !forallb_app, Hal1, Hbal2, Hmf2.
      split; [| reflexivity].
      change (freed [EvCall ExportMalloc [uint64 (len name + 1)] (CallOk r1)]) with (@nil Z).
      change (freed [EvCall ExportFree [np] fres]) with [np].
      change (allocated [EvCall ExportFree [np] fres]) with (@nil Z).
      cbn [app]. rewrite app_nil_r. symmetry. apply Permutation_cons_append.
    + right. destruct (allocString_ok _ _ _ _ Ha2) as (r2 & _ & Hvp & Hgood2 & _ & Htr2).
      rewrite Call_eq, (uint64_small np), (uint64_small vp)
        by (destruct Hgood1, Hgood2; lia).
      match goal with
      | |- context [freePtr vp ?w3] =>
          destruct (freePtr_good vp w3 Hgood2) as [f1 Hfree1]; rewrite Hfree1
      end.
      match goal with
      | |- context [freePtr np ?w4] =>
          destruct (freePtr_good np w4 Hgood1) as [f2 Hfree2]; rewrite Hfree2
      end.
      exists r1, r2, np, vp, (snd (guest_call ExportDashSetVar [np; vp] (store w2))), f1, f2.
      cbn [trace store].
      destruct (snd (guest_call ExportDashSetVar [np; vp] (store w2))) as [e | r0];
        [| destruct (negb (int32 r0 =? 0))];
        unfold ret; cbn [fst snd trace];
        rewrite Htr2, Htr1, <- !app_assoc; auto 10.
Qed.

(** Every path of [SetVar] releases what it allocated: when the value
    cannot be allocated the name is released and the guest's [dash_setvar]
    is not called; when [dash_setvar] is called, it is between the two
    allocations and the two releases (the value first, then the name), with
    the two addresses, and [SetVar] fails exactly when the call fails or
    answers a value whose [int32] is not 0. *)
Theorem SetVar_releases (d : Dash) (name value : gostring) (w : World) :
  exists seg,
    trace (snd (SetVar d name value w)) = trace w ++ seg /\
    Permutation (freed seg) (allocated seg) /\
    (forall params res,
        In (EvCall ExportDashSetVar params res) seg ->
        exists r1 r2 np vp f1 f2,
          good_ptr np /\ good_ptr vp /\ np = uint32 r1 /\ vp = uint32 r2 /\
          params = [np; vp] /\
          seg = [EvCall ExportMalloc [uint64 (len name + 1)] (CallOk r1);
                 EvCall ExportMalloc [uint64 (len value + 1)] (CallOk r2);
                 EvCall ExportDashSetVar params res;
                 EvCall ExportFree [vp] f1;
                 EvCall ExportFree [np] f2] /\
          fst (SetVar d name value w)
          = match res with
            | CallErr e => Some e
            | CallOk r0 =>
                if negb (int32 r0 =? 0) then Some "dash_setvar failed"%string else None
            end).
Proof.
  assert (Hnone : forall v,
             SetVar d name value w = (v, w) ->
             exists seg,
               trace (snd (SetVar d name value w)) = trace w ++ seg /\
               Permutation (freed seg) (allocated seg) /\
               (forall params res, In (EvCall ExportDashSetVar params res) seg -> False)).
  { intros v Heq. exists []. rewrite Heq. cbn [snd]. rewrite app_nil_r.
    repeat split; auto. }
  destruct (initialized d) eqn:Hinit;
    [| destruct (Hnone (Some "dash not initialized"%string)) as (seg & Htr & Hperm & Hno);
       [unfold SetVar; rewrite Hinit; reflexivity
       | exists seg; repeat split; auto; intros params res Hin; destruct (Hno _ _ Hin)]].
  destruct (dashSetVar d) eqn:Hexp;
    [| destruct (Hnone (Some "dash_setvar not available"%string)) as (seg & Htr & Hperm & Hno);
       [unfold SetVar; rewrite Hinit, Hexp; reflexivity
       | exists seg; repeat split; auto; intros params res Hin; destruct (Hno _ _ Hin)]].
  clear Hnone.
  destruct (SetVar_cases d name value w Hinit Hexp)
    as [(e & seg & _ & Htr & Hperm & Hmf)
       | (r1 & r2 & np & vp & res & f1 & f2 & Hg1 & Hg2 & Hnp & Hvp & Htr & Hres)].
  - exists seg. split; [exact Htr |]. split; [exact Hperm |].
    intros params res0 Hin. rewrite forallb_forall in Hmf. apply Hmf in Hin. discriminate.
  - eexists. split; [exact Htr |]. split.
    + unfold freed, allocated. cbn [flat_map freed_of allocated_of app].
      rewrite <- Hnp, <- Hvp. destruct Hg1 as [Hnz1 _], Hg2 as [Hnz2 _].
      destruct (Z.eqb_spec np 0); [contradiction |].
      destruct (Z.eqb_spec vp 0); [contradiction |].
      cbn [app]. apply perm_swap.
    + intros params res0 [Hin | [Hin | [Hin | [Hin | [Hin | []]]]]]; try discriminate Hin.
      injection Hin as Hpar Hres0. subst params res0.
      exists r1, r2, np, vp, f1, f2. auto 10.
Qed.

(** [GetExitStatus] marshals nothing: it makes at most one call, to the
    guest's [dash_get_exitstatus], and none to the allocator or the
    deallocator. Its status is an [int32] value, -1 whenever it returns an
    error; an error of the guest call is returned as it is. *)
Theorem GetExitStatus_calls (d : Dash) (w : World) :
  - 2 ^ 31 <= fst (fst (GetExitStatus d w)) < 2 ^ 31 /\
  (snd (fst (GetExitStatus d w)) <> None -> fst (fst (GetExitStatus d w)) = -1) /\
  (trace (snd (GetExitStatus d w)) = trace w \/
   exists res,
     trace (snd (GetExitStatus d w)) = trace w ++ [EvCall ExportDashGetExitStatus [] res] /\
     fst (GetExitStatus d w)
     = match res with
       | CallErr e => (-1, Some e)
       | CallOk r0 => (int32 r0, None)
       end).
Proof.
  unfold GetExitStatus.
  destruct (initialized d); cbn [negb];
    [| unfold ret; cbn [fst snd]; repeat split; try lia; auto].
  destruct (dashGetExitStatus d); cbn [negb];
    [| unfold ret; cbn [fst snd]; repeat split; try lia; auto].
  unfold bind. rewrite Call_eq.
  destruct (snd (guest_call ExportDashGetExitStatus [] (store w))) as [e | r0] eqn:Hres;
    unfold ret; cbn [fst snd trace].
  - split; [lia |]. split; [reflexivity |]. right. eauto.
  - split; [apply int32_range |]. split; [intros H; now contradiction H |]. right. eauto.
Qed.

(** ** The argv array of Init *)

Lemma ReadByte_fits (m : Memory.t) (a : Z) :
  0 <= a -> a + 1 <= Memory.Size m -> Memory.ReadByte m a = nth_error m (Z.to_nat a).
Proof.
  intros Ha Hin. unfold Memory.ReadByte, Memory.hasSize.
  destruct (Z.leb_spec (a + 1) (Memory.Size m)); [reflexivity | lia].
Qed.

(** Two memories that agree byte for byte on a range give the same read. *)
Lemma Read_ext (m m' : Memory.t) (offset byteCount : Z) :
  0 <= offset -> 0 <= byteCount ->
  offset + byteCount <= Memory.Size m -> offset + byteCount <= Memory.Size m' ->
  (forall a, offset <= a < offset + byteCount ->
             Memory.ReadByte m' a = Memory.ReadByte m a) ->
  Memory.Read m' offset byteCount = Memory.Read m offset byteCount.
Proof.
  intros Ho Hk Hm Hm' Hbytes. rewrite !Read_fits by assumption. f_equal.
  apply nth_error_ext. intros n. rewrite !nth_error_firstn.
  destruct (Nat.ltb_spec n (Z.to_nat byteCount)) as [Hn | Hn]; [| reflexivity].
  rewrite !nth_error_skipn.
  specialize (Hbytes (offset + Z.of_nat n) ltac:(lia)).
  rewrite !ReadByte_fits in Hbytes by lia.
  replace (Z.to_nat offset + n)%nat with (Z.to_nat (offset + Z.of_nat n)) by lia.
  exact Hbytes.
Qed.

Lemma Init_writeArgv_frame (argv : Z) (ptrs : list Z) :
  forall (i0 : nat) (w : World),
    0 <= argv ->
    argv + 4 * (Z.of_nat i0 + len ptrs) <= Memory.Size (memory (inst (store w))) ->
    wasm32 (memory (inst (store w))) ->
    Memory.Size (memory (inst (store (snd (Init_writeArgv argv i0 ptrs w)))))
    = Memory.Size (memory (inst (store w))) /\
    (forall (j : nat) (p : Z),
        nth_error ptrs j = Some p ->
        Memory.Read (memory (inst (store (snd (Init_writeArgv argv i0 ptrs w)))))
          (argv + 4 * (Z.of_nat i0 + Z.of_nat j)) 4 = Some (le_split 4 p)) /\
    (forall a : Z,
        0 <= a ->
        a < argv + 4 * Z.of_nat i0 \/ argv + 4 * (Z.of_nat i0 + len ptrs) <= a ->
        Memory.ReadByte (memory (inst (store (snd (Init_writeArgv argv i0 ptrs w))))) a
        = Memory.ReadByte (memory (inst (store w))) a).
Proof.
  induction ptrs as [| p rest IH]; intros i0 w Hargv Hfit H32; cbn [Init_writeArgv].
  - unfold ret. cbn [snd]. split; [reflexivity |].
    split; [intros [| j] q Hq; discriminate Hq | reflexivity].
  - unfold wasm32 in H32.
    assert (Hlen : len (p :: rest) = 1 + len rest) by (unfold len; cbn [List.length]; lia).
    pose proof (len_nonneg rest) as Hnn. rewrite Hlen in *.
    unfold bind, MemWriteUint32Le, Memory.WriteUint32Le.
    rewrite (uint32_small (Z.of_nat i0 * 4)) by lia.
    rewrite (uint32_small (argv + Z.of_nat i0 * 4)) by lia.
    set (o := argv + Z.of_nat i0 * 4).
    assert (Ho : 0 <= o) by (unfold o; lia).
    destruct (Memory.Write (memory (inst (store w))) o (le_split 4 p)) as [m1 ok] eqn:Hw.
    assert (Hok : ok = true).
    { destruct (Write_inv _ _ _ _ _ Hw) as [(-> & _) | (_ & Hout & _)]; [reflexivity |].
      unfold len in Hout. rewrite length_le_split in Hout. unfold o in Hout. lia. }
    subst ok.
    assert (Hsz1 : Memory.Size m1 = Memory.Size (memory (inst (store w)))).
    { pose proof (Write_Size (memory (inst (store w))) o (le_split 4 p) Ho) as Hs.
      rewrite Hw in Hs. exact Hs. }
    match goal with
    | |- context [Init_writeArgv argv (S i0) rest ?w1] =>
        destruct (IH (S i0) w1 Hargv) as (Hsz & Hread & Hframe)
    end.
    { cbn [store inst memory set_memory]. rewrite Hsz1. lia. }
    { unfold wasm32. cbn [store inst memory set_memory]. rewrite Hsz1. lia. }
    cbn [store inst memory set_memory] in Hsz, Hread, Hframe.
    split; [rewrite Hsz; exact Hsz1 |]. split.
    + intros [| j] q Hq; cbn [nth_error] in Hq.
      * inversion Hq; subst q.
        replace (argv + 4 * (Z.of_nat i0 + Z.of_nat 0)) with o by (unfold o; lia).
        rewrite <- (Read_Write _ _ _ _ Ho Hw).
        replace (len (le_split 4 p)) with 4 by (unfold len; now rewrite length_le_split).
        apply Read_ext; try (unfold o; lia).
        intros a Ha. apply Hframe; unfold o in *; lia.
      * rewrite <- (Hread j q Hq). f_equal. lia.
    + intros a Ha Hout. rewrite Hframe by lia.
      apply (ReadByte_Write_other _ _ _ _ _ _ Ho Ha Hw).
      unfold len. rewrite length_le_split. unfold o. lia.
Qed.

Lemma Init_writeArgv_state (argv : Z) (ptrs : list Z) :
  forall (i0 : nat) (w : World),
    state (store (snd (Init_writeArgv argv i0 ptrs w))) = state (store w).
Proof.
  induction ptrs as [| p rest IH]; intros i0 w; cbn [Init_writeArgv].
  - reflexivity.
  - unfold bind, MemWriteUint32Le.
    destruct (Memory.WriteUint32Le _ _ _) as [m1 ok]. rewrite IH. reflexivity.
Qed.

(** The pointer array [Init] hands to the guest. When the array fits in
    memory at [argv], the writes store the pointers as consecutive
    little-endian 32-bit words (the word at [argv + 4*i] is [ptrs[i]]),
    change no byte outside the array, make no call and leave the checkpoint
    table alone. *)
Theorem Init_writeArgv_layout (argv : Z) (ptrs : list Z) (w : World) :
  0 <= argv ->
  argv + 4 * len ptrs <= Memory.Size (memory (inst (store w))) ->
  wasm32 (memory (inst (store w))) ->
  trace (snd (Init_writeArgv argv 0 ptrs w)) = trace w /\
  state (store (snd (Init_writeArgv argv 0 ptrs w))) = state (store w) /\
  (forall (i : nat) (p : Z),
      nth_error ptrs i = Some p ->
      Memory.Read (memory (inst (store (snd (Init_writeArgv argv 0 ptrs w)))))
        (argv + 4 * Z.of_nat i) 4 = Some (le_split 4 p) /\
      le_combine (le_split 4 p) = uint32 p) /\
  (forall a : Z,
      0 <= a -> a < argv \/ argv + 4 * len ptrs <= a ->
      Memory.ReadByte (memory (inst (store (snd (Init_writeArgv argv 0 ptrs w))))) a
      = Memory.ReadByte (memory (inst (store w))) a).
Proof.
  intros Hargv Hfit H32.
  destruct (Init_writeArgv_frame argv ptrs 0 w Hargv) as (_ & Hread & Hframe);
    [lia | exact H32 |].
  split; [apply Init_writeArgv_trace |]. split; [apply Init_writeArgv_state |]. split.
  - intros i p Hp. split.
    + rewrite <- (Hread i p Hp). f_equal; lia.
    + rewrite le_combine_split. reflexivity.
  - intros a Ha Hout. apply Hframe; lia.
Qed.

End MarshalProofs.

(** ** The life of a session *)

Section LifecycleProofs.
Context {Snapshot Guest : Type} {E : Engine Snapshot Guest}.

Local Abbreviation World := (World Snapshot Guest).

(** After an [Init] that returned no error the session is initialized (the
    handles of the optional exports are as before): a further [Init] is
    refused without a call and without a change, and [Eval] is let through
    by its guard (it goes on to call the allocator). *)
Theorem Init_success_opens_session (d d' : Dash) (args : list gostring) (w w' : World) :
  Init d args w = ((None, d'), w') ->
  d' = set_initialized d true /\
  (forall (args2 : list gostring) (w2 : World),
      Init d' args2 w2 = ((Some "dash already initialized"%string, d'), w2)) /\
  (forall (cmd : gostring) (w2 : World),
      exists seg,
        trace (snd (Eval d' cmd w2)) = trace w2 ++ seg /\ starts_with_malloc seg).
Proof.
  intros HInit.
  assert (Hd : d' = set_initialized d true).
  { destruct (initialized d) eqn:Hinit.
    - unfold Init in HInit. rewrite Hinit in HInit. discriminate.
    - destruct (Init_trace_shape d args w Hinit) as (seg & _ & _ & _ & Hshape).
      rewrite HInit in Hshape. cbn [fst] in Hshape.
      destruct Hshape as [[_ [e He]] | (pre & ptrs & argv & res & post & _ & _ & _ & _
                                        & _ & _ & _ & Hres)]; [discriminate |].
      unfold Init_verdict in Hres. destruct res as [e | r0]; [discriminate |].
      destruct (negb (int32 r0 =? 0)); [discriminate |]. now inversion Hres. }
  split; [exact Hd |]. subst d'. split.
  - intros args2 w2. unfold Init. reflexivity.
  - intros cmd w2.
    destruct (Eval_cases (set_initialized d true) cmd w2 eq_refl)
      as [(e & seg & _ & Htr & _ & _ & Hst) | (r & p & res & fres & _ & _ & Htr & _)].
    + eauto.
    + eexists. split; [exact Htr | reflexivity].
Qed.

(** After [Close], whatever the session was and whatever the engine
    answered, the session is uninitialized: the four operations are refused
    with "dash not initialized". [Close] returns the answer of the module
    release; on a session that was not initialized the release is its only
    request to the engine (the guest's [dash_destroy] is not called). *)
Theorem Close_ends_session (d : Dash) (w : World) :
  initialized (snd (fst (Close d w))) = false /\
  rejects_uninitialized (snd (fst (Close d w))) /\
  snd (fst (Close d w)) = set_initialized d false /\
  (exists seg,
      trace (snd (Close d w)) = trace w ++ seg ++ [EvModClose] /\
      seg = (if initialized d
             then [EvCall ExportDashDestroy []
                     (snd (guest_call ExportDashDestroy [] (store w)))]
             else [])) /\
  fst (fst (Close d w))
  = snd (mod_close (inst (if initialized d
                          then fst (guest_call ExportDashDestroy [] (store w))
                          else store w))).
Proof.
  assert (Hd : snd (fst (Close d w)) = set_initialized d false /\
               (exists seg,
                   trace (snd (Close d w)) = trace w ++ seg ++ [EvModClose] /\
                   seg = (if initialized d
                          then [EvCall ExportDashDestroy []
                                  (snd (guest_call ExportDashDestroy [] (store w)))]
                          else [])) /\
               fst (fst (Close d w))
               = snd (mod_close (inst (if initialized d
                                       then fst (guest_call ExportDashDestroy [] (store w))
                                       else store w)))).
  { unfold Close, bind, ret. destruct (initialized d) eqn:Hinit.
    - rewrite Call_eq, ModClose_eq. cbn [fst snd store trace].
      split; [reflexivity |]. split; [| reflexivity].
      eexists. split; [| reflexivity]. now rewrite <- app_assoc.
    - rewrite ModClose_eq. cbn [fst snd store trace].
      split; [destruct d; cbn in *; now subst |]. split; [| reflexivity].
      exists []. split; reflexivity. }
  destruct Hd as (Hd & Htr & Herr).
  split; [rewrite Hd; reflexivity |].
  split; [apply not_initialized_guards; rewrite Hd; reflexivity |].
  auto.
Qed.

End LifecycleProofs.

(** ** Construction *)

Section ConstructionProofs.
Context {Snapshot Guest : Type} {E : Engine Snapshot Guest} {R : Runtime Snapshot Guest}.

Local Abbreviation World := (World Snapshot Guest).

Lemma missing_export_eq (f : Export) (w : World) :
  missing_export f w
  = ((None, Some (String.append "missing export: " (ExportName f))),
     {| store := {| inst := fst (mod_close (inst (store w))); state := state (store w) |};
        trace := trace w ++ [EvModClose] |}).
Proof. unfold missing_export, bind, ret. rewrite ModClose_eq. reflexivity. Qed.

(** What [newDashFromCompiled] answers once the module is instantiated:
    the failure of [_initialize] if the module has it and its call fails;
    otherwise the first required export that is missing, in the order
    malloc, free, dash_init, dash_eval, dash_destroy; otherwise a session,
    whose optional handles are those the module has. *)
Theorem newDashFromCompiled_first_missing (state : dashState Snapshot)
    (s0 : Store Snapshot Guest) :
  InstantiateModule state = inr s0 ->
  fst (newDashFromCompiled state)
  = match (if ExportedFunction "_initialize" then snd (initialize_Call s0) else CallOk 0) with
    | CallErr err => (None, Some (String.append "_initialize failed: " err))
    | CallOk _ =>
        match find (fun f => negb (ExportedFunction (ExportName f))) required_exports with
        | Some f => (None, Some (String.append "missing export: " (ExportName f)))
        | None =>
            (Some (newDash (ExportedFunction (ExportName ExportDashGetExitStatus))
                           (ExportedFunction (ExportName ExportDashGetVar))
                           (ExportedFunction (ExportName ExportDashSetVar))),
             None)
        end
    end.
Proof.
  intros Hinst. unfold newDashFromCompiled. rewrite Hinst.
  unfold required_exports. cbn [find].
  assert (Hchecks : forall w : World,
             fst ((if negb (ExportedFunction (ExportName ExportMalloc))
                   then missing_export ExportMalloc
                   else if negb (ExportedFunction (ExportName ExportFree))
                   then missing_export ExportFree
                   else if negb (ExportedFunction (ExportName ExportDashInit))
                   then missing_export ExportDashInit
                   else if negb (ExportedFunction (ExportName ExportDashEval))
                   then missing_export ExportDashEval
                   else if negb (ExportedFunction (ExportName ExportDashDestroy))
                   then missing_export ExportDashDestroy
                   else ret (Some (newDash
                                     (ExportedFunction (ExportName ExportDashGetExitStatus))
                                     (ExportedFunction (ExportName ExportDashGetVar))
                                     (ExportedFunction (ExportName ExportDashSetVar))),
                             None)) w)
             = (if negb (ExportedFunction (ExportName ExportMalloc))
                then (None, Some (String.append "missing export: " (ExportName ExportMalloc)))
                else if negb (ExportedFunction (ExportName ExportFree))
                then (None, Some (String.append "missing export: " (ExportName ExportFree)))
                else if negb (ExportedFunction (ExportName ExportDashInit))
                then (None, Some (String.append "missing export: " (ExportName ExportDashInit)))
                else if negb (ExportedFunction (ExportName ExportDashEval))
                then (None, Some (String.append "missing export: " (ExportName ExportDashEval)))
                else if negb (ExportedFunction (ExportName ExportDashDestroy))
                then (None,
                      Some (String.append "missing export: " (ExportName ExportDashDestroy)))
                else (Some (newDash
                              (ExportedFunction (ExportName ExportDashGetExitStatus))
                              (ExportedFunction (ExportName ExportDashGetVar))
                              (ExportedFunction (ExportName ExportDashSetVar))),
                      None))).
  { intros w.
    repeat match goal with
           | |- context [negb (ExportedFunction ?n)] =>
               destruct (ExportedFunction n); cbn [negb]; rewrite ?missing_export_eq;
               try reflexivity
           end. }
  unfold bind at 1.
  destruct (ExportedFunction "_initialize").
  - unfold bind at 1, initializeCall. cbn [store trace].
    destruct (initialize_Call s0) as [s1 r]. cbn [snd].
    destruct r as [err | r0].
    + unfold bind, ret. rewrite ModClose_eq. reflexivity.
    + unfold ret at 1.
      match goal with
      | |- fst (let (r, w) := ?k ?w0 in (r, Some w)) = _ =>
          specialize (Hchecks w0); destruct (k w0) as [r1 w1]
      end.
      cbn [fst] in *. rewrite Hchecks.
      repeat match goal with
             | |- context [negb (ExportedFunction ?n)] =>
                 destruct (ExportedFunction n); cbn [negb]; try reflexivity
             end.
  - unfold ret at 1.
    match goal with
    | |- fst (let (r, w) := ?k ?w0 in (r, Some w)) = _ =>
        specialize (Hchecks w0); destruct (k w0) as [r1 w1]
    end.
    cbn [fst] in *. rewrite Hchecks.
    repeat match goal with
           | |- context [negb (ExportedFunction ?n)] =>
               destruct (ExportedFunction n); cbn [negb]; try reflexivity
           end.
Qed.

Lemma newDashFromCompiled_cases (state : dashState Snapshot) :
  (exists e, newDashFromCompiled state = ((None, Some e), None))
  \/ (exists e w,
         newDashFromCompiled state = ((None, Some e), Some w) /\ trace w = [EvModClose])
  \/ (exists w,
         newDashFromCompiled state
         = ((Some (newDash (ExportedFunction (ExportName ExportDashGetExitStatus))
                           (ExportedFunction (ExportName ExportDashGetVar))
                           (ExportedFunction (ExportName ExportDashSetVar))), None),
            Some w) /\
         trace w = [] /\
         Forall (fun f => ExportedFunction (ExportName f) = true) required_exports).
Proof.
  unfold newDashFromCompiled.
  destruct (InstantiateModule state) as [e | s0]; [left; eauto |]. right.
  assert (Hchecks : forall w : World,
             trace w = [] ->
             (exists e w',
                 (if negb (ExportedFunction (ExportName ExportMalloc))
                  then missing_export ExportMalloc
                  else if negb (ExportedFunction (ExportName ExportFree))
                  then missing_export ExportFree
                  else if negb (ExportedFunction (ExportName ExportDashInit))
                  then missing_export ExportDashInit
                  else if negb (ExportedFunction (ExportName ExportDashEval))
                  then missing_export ExportDashEval
                  else if negb (ExportedFunction (ExportName ExportDashDestroy))
                  then missing_export ExportDashDestroy
                  else ret (Some (newDash
                                    (ExportedFunction (ExportName ExportDashGetExitStatus))
                                    (ExportedFunction (ExportName ExportDashGetVar))
                                    (ExportedFunction (ExportName ExportDashSetVar))),
                            None)) w = ((None, Some e), w') /\ trace w' = [EvModClose])
             \/
             ((if negb (ExportedFunction (ExportName ExportMalloc))
               then missing_export ExportMalloc
               else if negb (ExportedFunction (ExportName ExportFree))
               then missing_export ExportFree
               else if negb (ExportedFunction (ExportName ExportDashInit))
               then missing_export ExportDashInit
               else if negb (ExportedFunction (ExportName ExportDashEval))
               then missing_export ExportDashEval
               else if negb (ExportedFunction (ExportName ExportDashDestroy))
               then missing_export ExportDashDestroy
               else ret (Some (newDash
                                 (ExportedFunction (ExportName ExportDashGetExitStatus))
                                 (ExportedFunction (ExportName ExportDashGetVar))
                                 (ExportedFunction (ExportName ExportDashSetVar))),
                         None)) w
              = ((Some (newDash (ExportedFunction (ExportName ExportDashGetExitStatus))
                                (ExportedFunction (ExportName ExportDashGetVar))
                                (ExportedFunction (ExportName ExportDashSetVar))), None), w)
              /\ Forall (fun f => ExportedFunction (ExportName f) = true) required_exports)).
  { intros w Hw. unfold required_exports.
    destruct (ExportedFunction (ExportName ExportMalloc)) eqn:H1; cbn [negb];
      [| left; rewrite missing_export_eq; cbn [trace]; rewrite Hw; eauto].
    destruct (ExportedFunction (ExportName ExportFree)) eqn:H2; cbn [negb];
      [| left; rewrite missing_export_eq; cbn [trace]; rewrite Hw; eauto].
    destruct (ExportedFunction (ExportName ExportDashInit)) eqn:H3; cbn [negb];
      [| left; rewrite missing_export_eq; cbn [trace]; rewrite Hw; eauto].
    destruct (ExportedFunction (ExportName ExportDashEval)) eqn:H4; cbn [negb];
      [| left; rewrite missing_export_eq; cbn [trace]; rewrite Hw; eauto].
    destruct (ExportedFunction (ExportName ExportDashDestroy)) eqn:H5; cbn [negb];
      [| left; rewrite missing_export_eq; cbn [trace]; rewrite Hw; eauto].
    right. split; [reflexivity |]. repeat constructor; assumption. }
  match goal with
  | |- context [let (r, w) := ?t ?w0 in (r, Some w)] => set (out := t w0)
  end.
  assert (Hout : exists r w',
             out = (r, w') /\
             ((exists e, r = (None, Some e) /\ trace w' = [EvModClose])
              \/ (r = (Some (newDash
                               (ExportedFunction (ExportName ExportDashGetExitStatus))
                               (ExportedFunction (ExportName ExportDashGetVar))
                               (ExportedFunction (ExportName ExportDashSetVar))), None)
                  /\ trace w' = [] /\
                  Forall (fun f => ExportedFunction (ExportName f) = true)
                    required_exports))).
  { unfold out. unfold bind at 1.
    destruct (ExportedFunction "_initialize").
    - unfold bind at 1, initializeCall. cbn [store trace].
      destruct (initialize_Call s0) as [s1 r].
      destruct r as [err | r0].
      + unfold bind, ret. rewrite ModClose_eq. cbn [trace].
        do 2 eexists. split; [reflexivity |]. left. eauto.
      + unfold ret at 1.
        destruct (Hchecks {| store := s1; trace := [] |} eq_refl)
          as [(e & w' & Hk & Htr) | (Hk & Hall)]; rewrite Hk;
          do 2 eexists; (split; [reflexivity |]); [left; eauto | right; auto].
    - unfold ret at 1.
      destruct (Hchecks {| store := s0; trace := [] |} eq_refl)
        as [(e & w' & Hk & Htr) | (Hk & Hall)]; rewrite Hk;
        do 2 eexists; (split; [reflexivity |]); [left; eauto | right; auto]. }
  clearbody out.
  destruct Hout as (r & w' & -> & [(e & -> & Htr) | (-> & Htr & Hall)]); [left | right]; eauto.
Qed.

(** [NewDash] returns a session or an error, never both and never neither.
    A session it returns is not initialized (the four operations are
    refused), its module was not released, every required export is there
    and each step before succeeded. When it returns an error after the
    module was instantiated, the module has been released, once. *)
Theorem NewDash_outcome :
  (forall d : Dash,
      fst (fst NewDash) = Some d ->
      snd (fst NewDash) = None /\
      initialized d = false /\ rejects_uninitialized d /\
      (exists w, snd NewDash = Some w /\ trace w = []) /\
      Forall (fun f => ExportedFunction (ExportName f) = true) required_exports /\
      wasi_Instantiate = None /\ env_Instantiate = None /\ CompileModule = None) /\
  (fst (fst NewDash) = None ->
   snd (fst NewDash) <> None /\
   (snd NewDash = None \/ exists w, snd NewDash = Some w /\ trace w = [EvModClose])).
Proof.
  unfold NewDash, CompileDash.
  destruct wasi_Instantiate as [e |];
    [split; [discriminate | intros _; split; [discriminate | now left]] |].
  destruct env_Instantiate as [e |];
    [split; [discriminate | intros _; split; [discriminate | now left]] |].
  destruct CompileModule as [e |];
    [split; [discriminate | intros _; split; [discriminate | now left]] |].
  destruct (newDashFromCompiled_cases {| checkpoints := [] |})
    as [[e Heq] | [(e & w & Heq & Htr) | (w & Heq & Htr & Hall)]]; rewrite Heq; cbn [fst snd].
  - split; [discriminate | intros _; split; [discriminate | now left]].
  - split; [discriminate | intros _; split; [discriminate | right; eauto]].
  - split; [| discriminate].
    intros d Hd. inversion Hd; subst d.
    split; [reflexivity |]. split; [reflexivity |].
    split; [now apply not_initialized_guards |]. eauto 8.
Qed.

End ConstructionProofs.

(** ** The command *)

Section CommandLineProofs.
Context {Snapshot Guest : Type} {E : Engine Snapshot Guest} {R : Runtime Snapshot Guest}.

Local Abbreviation World := (World Snapshot Guest).

Lemma malloc_or_free_is_work (seg : list Event) :
  forallb malloc_or_free seg = true -> forallb is_work seg = true.
Proof.
  rewrite !forallb_forall. intros H ev Hin. specialize (H ev Hin).
  destruct ev as [f params res |]; [| discriminate].
  destruct f; try discriminate; reflexivity.
Qed.

(** The calls of one [Eval]: balanced, and neither teardown nor release. *)
Lemma Eval_trace_work (d : Dash) (cmd : gostring) (w : World) :
  exists seg,
    trace (snd (Eval d cmd w)) = trace w ++ seg /\
    freed seg = allocated seg /\ forallb is_work seg = true.
Proof.
  destruct (initialized d) eqn:Hinit.
  - destruct (Eval_cases d cmd w Hinit)
      as [(e & seg & _ & Htr & Hbal & Hmf & _) | (r & p & res & fres & Hgood & Hp & Htr & _)].
    + exists seg. auto using malloc_or_free_is_work.
    + eexists. split; [exact Htr |]. split; [| reflexivity].
      unfold freed, allocated. cbn [flat_map freed_of allocated_of app].
      rewrite <- Hp. destruct Hgood as [Hnz _].
      destruct (Z.eqb_spec p 0); [contradiction | reflexivity].
  - exists []. unfold Eval. rewrite Hinit. cbn [negb]. unfold ret. cbn [snd].
    rewrite app_nil_r. auto.
Qed.

Lemma eval_each_trace_work (d : Dash) (cmds : list gostring) :
  forall w : World,
    exists seg,
      trace (snd (eval_each d cmds w)) = trace w ++ seg /\
      freed seg = allocated seg /\ forallb is_work seg = true.
Proof.
  induction cmds as [| cmd rest IH]; intros w; cbn [eval_each].
  - exists []. unfold ret. cbn [snd]. rewrite app_nil_r. auto.
  - unfold bind.
    destruct (Eval_trace_work d cmd w) as (seg1 & Htr1 & Hbal1 & Hw1).
    destruct (Eval d cmd w) as [r w1]. cbn [snd] in Htr1.
    destruct (IH w1) as (seg2 & Htr2 & Hbal2 & Hw2).
    exists (seg1 ++ seg2). rewrite Htr2, Htr1, app_assoc.
    rewrite freed_app, allocated_app, forallb_app, Hbal1, Hbal2, Hw1, Hw2. auto.
Qed.

Lemma runREPL_loop_world (d : Dash) (lines : list gostring) :
  forall w : World,
    snd (runREPL_loop d lines w) = snd (eval_each d (repl_commands lines) w).
Proof.
  induction lines as [| line rest IH]; intros w; cbn [runREPL_loop].
  - reflexivity.
  - unfold repl_commands. cbn [take_until]. unfold is_exit.
    destruct (line_is line "exit" || line_is line "quit"); [reflexivity |].
    cbn [filter]. fold (repl_commands rest).
    destruct (line_is line ""); cbn [negb].
    + unfold bind. rewrite <- IH. destruct (runREPL_loop d rest w). reflexivity.
    + cbn [eval_each]. unfold bind. destruct (Eval d line w) as [r w1].
      rewrite <- IH.
      destruct (snd r); destruct (runREPL_loop d rest w1); reflexivity.
Qed.

(** What a REPL run does to the guest is what evaluating, in order, the
    lines before the first "exit" or "quit" does, the empty lines left out:
    an error of one evaluation does not stop the next, and nothing after the
    stop line is evaluated. *)
Theorem runREPL_evaluates_commands (d : Dash) (lines : list gostring) (w : World) :
  snd (runREPL d lines w) = snd (eval_each d (repl_commands lines) w) /\
  (forall pre stop post,
      lines = pre ++ stop :: post -> is_exit stop = true ->
      snd (runREPL d lines w) = snd (runREPL d (pre ++ [stop]) w)).
Proof.
  assert (Hrun : forall ls,
             snd (runREPL d ls w) = snd (eval_each d (repl_commands ls) w)).
  { intros ls. unfold runREPL, bind. rewrite <- runREPL_loop_world.
    destruct (runREPL_loop d ls w). reflexivity. }
  split; [apply Hrun |].
  intros pre stop post -> Hstop. rewrite !Hrun.
  assert (Hcut : take_until is_exit (pre ++ stop :: post)
                 = take_until is_exit (pre ++ [stop])).
  { clear Hrun. induction pre as [| x pre IH]; cbn [app take_until].
    - now rewrite Hstop.
    - destruct (is_exit x); [reflexivity | now rewrite IH]. }
  unfold repl_commands. rewrite Hcut. reflexivity.
Qed.

(** A REPL run leaves nothing allocated in the guest, and neither tears
    the shell down nor releases the module: over the whole run the released
    addresses are the allocated ones, and every request is a call of an
    export other than [dash_destroy]. *)
Theorem runREPL_releases (d : Dash) (lines : list gostring) (w : World) :
  exists seg,
    trace (snd (runREPL d lines w)) = trace w ++ seg /\
    freed seg = allocated seg /\
    forallb is_work seg = true.
Proof.
  unfold runREPL, bind.
  pose proof (runREPL_loop_world d lines w) as Hw.
  destruct (runREPL_loop d lines w) as [out w1]. cbn [snd] in *. rewrite Hw.
  apply eval_each_trace_work.
Qed.

Lemma NewDash_cases :
  (exists e, NewDash = ((None, Some e), None))
  \/ (exists e w, NewDash = ((None, Some e), Some w) /\ trace w = [EvModClose])
  \/ (exists d w,
         NewDash = ((Some d, None), Some w) /\ trace w = [] /\ initialized d = false /\
         d = newDash (ExportedFunction (ExportName ExportDashGetExitStatus))
                     (ExportedFunction (ExportName ExportDashGetVar))
                     (ExportedFunction (ExportName ExportDashSetVar))).
Proof.
  unfold NewDash, CompileDash.
  destruct wasi_Instantiate as [e |]; [left; eauto |].
  destruct env_Instantiate as [e |]; [left; eauto |].
  destruct CompileModule as [e |]; [left; eauto |].
  destruct (newDashFromCompiled_cases {| checkpoints := [] |})
    as [[e Heq] | [(e & w & Heq & Htr) | (w & Heq & Htr & Hall)]]; rewrite Heq.
  - left. eauto.
  - right. left. eauto.
  - right. right. eauto 8.
Qed.

Lemma work_no_destroy (seg : list Event) :
  forallb is_work seg = true -> existsb is_destroy seg = false.
Proof.
  induction seg as [| ev seg IH]; cbn [forallb existsb]; [reflexivity |].
  intros H. apply andb_true_iff in H. destruct H as [Hev Hseg].
  rewrite (IH Hseg). unfold is_work in Hev. apply andb_true_iff in Hev.
  destruct Hev as [_ Hnd]. destruct (is_destroy ev); [discriminate | reflexivity].
Qed.

Lemma Init_trace_work (d : Dash) (args : list gostring) (w : World) :
  exists seg,
    trace (snd (Init d args w)) = trace w ++ seg /\ forallb is_work seg = true.
Proof.
  destruct (initialized d) eqn:Hinit.
  - exists []. unfold Init. rewrite Hinit. unfold ret. cbn [snd]. now rewrite app_nil_r.
  - destruct (Init_trace_shape d args w Hinit) as (seg & Htr & _ & _ & Hshape).
    exists seg. split; [exact Htr |].
    destruct Hshape as [[Hmf _] | (pre & ptrs & argv & res & post & -> & Hpre & _ & _
                                   & Hpost & _)].
    + now apply malloc_or_free_is_work.
    + rewrite forallb_app. cbn [forallb].
      rewrite (malloc_or_free_is_work _ (forallb_is_malloc_weaken _ Hpre)).
      rewrite (malloc_or_free_is_work _ (forallb_is_free_weaken _ Hpost)). reflexivity.
Qed.

Lemma Init_ok_initialized (d d' : Dash) (args : list gostring) (w w' : World) :
  Init d args w = ((None, d'), w') -> initialized d' = true.
Proof.
  intros HInit. destruct (initialized d) eqn:Hinit.
  - unfold Init in HInit. rewrite Hinit in HInit. discriminate.
  - destruct (Init_trace_shape d args w Hinit) as (seg & _ & _ & _ & Hshape).
    rewrite HInit in Hshape. cbn [fst] in Hshape.
    destruct Hshape as [[_ [e He]] | (pre & ptrs & argv & res & post & _ & _ & _ & _
                                      & _ & _ & _ & Hres)]; [discriminate |].
    unfold Init_verdict in Hres. destruct res as [e | r0]; [discriminate |].
    destruct (negb (int32 r0 =? 0)); [discriminate |]. now inversion Hres.
Qed.

Lemma eval_and_exit_quiet (d : Dash) (code : gostring) (w : World) :
  existsb is_destroy (trace w) = false ->
  existsb is_destroy (trace (snd (eval_and_exit d code w))) = false /\
  fst (fst (eval_and_exit d code w)) <> MainReturns /\
  fst (fst (eval_and_exit d code w)) <> NilSession.
Proof.
  intros Hw. unfold eval_and_exit, bind.
  destruct (Eval_trace_work d code w) as (seg & Htr & _ & Hwork).
  destruct (Eval d code w) as [e w1]. cbn [snd] in Htr.
  destruct (snd e); unfold ret; cbn [fst snd]; rewrite Htr, existsb_app, Hw,
    (work_no_destroy _ Hwork); repeat split; discriminate.
Qed.

Lemma main_session_teardown (d : Dash) (Args : list gostring)
    (ReadFile : gostring -> string + gostring) (stdin : list gostring) (w : World) :
  existsb is_destroy (trace w) = false ->
  exists ex out w',
    main_session d Args ReadFile stdin w = ((ex, out), w') /\
    (existsb is_destroy (trace w') = true <-> ex = MainReturns) /\
    ex <> NilSession.
Proof.
  intros Hw. unfold main_session. unfold bind at 1.
  destruct (Init_trace_work d [] w) as (seg & Htr & Hwork).
  destruct (Init d [] w) as [[err d1] w1] eqn:HInit. cbn [fst snd] in *.
  assert (Hw1 : existsb is_destroy (trace w1) = false)
    by (rewrite Htr, existsb_app, Hw, (work_no_destroy _ Hwork); reflexivity).
  assert (Hquiet : forall (ex : Exit) (w2 : World),
             ex <> MainReturns -> ex <> NilSession ->
             existsb is_destroy (trace w2) = false ->
             (existsb is_destroy (trace w2) = true <-> ex = MainReturns) /\
             ex <> NilSession).
  { intros ex w2 Hr Hn Hw2. rewrite Hw2.
    split; [split; [discriminate | contradiction] | exact Hn]. }
  assert (Heval : forall code,
             exists ex out w',
               eval_and_exit d1 code w1 = ((ex, out), w') /\
               (existsb is_destroy (trace w') = true <-> ex = MainReturns) /\
               ex <> NilSession).
  { intros code. destruct (eval_and_exit_quiet d1 code w1 Hw1) as (Hq & Hr & Hn).
    destruct (eval_and_exit d1 code w1) as [[ex out] w2]. cbn [fst snd] in *.
    exists ex, out, w2. split; [reflexivity |]. now apply Hquiet. }
  destruct err as [e |].
  - unfold ret. do 3 eexists. split; [reflexivity |].
    apply Hquiet; [discriminate | discriminate | exact Hw1].
  - apply Init_ok_initialized in HInit.
    destruct ((3 <=? len Args) && line_is (nth 1 Args []) "-c"); [apply Heval |].
    destruct ((2 <=? len Args) && negb (line_is (nth 1 Args []) "-")).
    + destruct (ReadFile (nth 1 Args [])) as [e | code]; [| apply Heval].
      unfold ret. do 3 eexists. split; [reflexivity |].
      apply Hquiet; [discriminate | discriminate | exact Hw1].
    + unfold bind at 1. destruct (runREPL d1 stdin w1) as [out w2].
      unfold Close, bind, ret. rewrite HInit, Call_eq, ModClose_eq.
      cbn [fst snd trace store].
      do 3 eexists. split; [reflexivity |].
      split; [| discriminate]. split; [reflexivity | intros _].
      cbn [trace]. rewrite !existsb_app. cbn. rewrite orb_true_r. reflexivity.
Qed.

(** [main] tears the shell down exactly when it returns, that is at the
    end of the REPL: there the guest's [dash_destroy] is called. In command
    mode, in script mode and on every fatal error the process exits with
    the deferred [Close] not run, and [dash_destroy] is never called.
    [main] never uses a session that was not returned. *)
Theorem main_teardown_iff_return (Args : list gostring)
    (ReadFile : gostring -> string + gostring) (stdin : list gostring) :
  fst (fst (main Args ReadFile stdin)) <> NilSession /\
  match snd (main Args ReadFile stdin) with
  | Some w =>
      existsb is_destroy (trace w) = true
      <-> fst (fst (main Args ReadFile stdin)) = MainReturns
  | None => fst (fst (main Args ReadFile stdin)) <> MainReturns
  end.
Proof.
  unfold main.
  destruct NewDash_cases as [[e Heq] | [(e & w & Heq & Htr) | (d & w & Heq & Htr & _)]];
    rewrite Heq; cbn [fst snd].
  - split; discriminate.
  - split; [discriminate |]. rewrite Htr. cbn. split; discriminate.
  - destruct (main_session_teardown d Args ReadFile stdin w)
      as (ex & out & w' & Hrun & Hiff & Hn); [rewrite Htr; reflexivity |].
    rewrite Hrun. cbn [fst snd]. auto.
Qed.

Lemma main_after_Init (Args : list gostring) (ReadFile : gostring -> string + gostring)
    (stdin : list gostring) (d d' : Dash) (w w' : World) :
  NewDash = ((Some d, None), Some w) ->
  Init d [] w = ((None, d'), w') ->
  main Args ReadFile stdin
  = (let (r, w2) :=
       (if (3 <=? len Args) && line_is (nth 1 Args []) "-c"
        then eval_and_exit d' (nth 2 Args [])
        else if (2 <=? len Args) && negb (line_is (nth 1 Args []) "-")
        then match ReadFile (nth 1 Args []) with
             | inl err =>
                 ret (LogFatal
                        (String.append "failed to read "
                           (String.append (string_of_list_byte (nth 1 Args []))
                              (String.append ": " err))), [])
             | inr code => eval_and_exit d' code
             end
        else bind (runREPL d' stdin)
               (fun out => bind (Close d') (fun _ => ret (MainReturns, out)))) w'
     in (r, Some w2)).
Proof.
  intros Hnew HInit. unfold main. rewrite Hnew. cbn [fst snd].
  unfold main_session. unfold bind at 1. rewrite HInit. reflexivity.
Qed.

(** The arguments at the edges. The flag -c without a command after it is
    not the command mode: it is taken as the name of a script, and the file
    named "-c" is read. A lone "-" is the REPL, as no argument at all is:
    the file system is not consulted. *)
Theorem main_argument_edges (prog arg : gostring)
    (ReadFile ReadFile' : gostring -> string + gostring) (stdin : list gostring)
    (d d' : Dash) (w w' : World) :
  NewDash = ((Some d, None), Some w) ->
  Init d [] w = ((None, d'), w') ->
  (line_is arg "-c" = true ->
   main [prog; arg] ReadFile stdin
   = match ReadFile arg with
     | inl err =>
         ((LogFatal (String.append "failed to read -c: " err), []), Some w')
     | inr code => (fst (eval_and_exit d' code w'), Some (snd (eval_and_exit d' code w')))
     end) /\
  (line_is arg "-" = true ->
   main [prog; arg] ReadFile stdin = main [prog] ReadFile' stdin /\
   main [prog] ReadFile stdin = main [] ReadFile' stdin).
Proof.
  intros Hnew HInit.
  rewrite !(fun Args RF => main_after_Init Args RF stdin d d' w w' Hnew HInit).
  change (len [prog; arg]) with 2. change (len [prog]) with 1.
  change (len (@nil gostring)) with 0.
  change (3 <=? 2) with false. change (3 <=? 1) with false. change (3 <=? 0) with false.
  change (2 <=? 2) with true. change (2 <=? 1) with false. change (2 <=? 0) with false.
  cbn [andb nth].
  split.
  - intros Harg. unfold line_is in Harg. apply String.eqb_eq in Harg.
    unfold line_is. rewrite Harg. cbn [String.eqb Ascii.eqb Bool.eqb negb].
    destruct (ReadFile arg) as [err | code].
    + reflexivity.
    + destruct (eval_and_exit d' code w'). reflexivity.
  - intros Harg. rewrite Harg. cbn [negb]. split; reflexivity.
Qed.

Lemma Init_ok_session (d d' : Dash) (args : list gostring) (w w' : World) :
  Init d args w = ((None, d'), w') -> d' = set_initialized d true.
Proof.
  intros HInit. destruct (initialized d) eqn:Hinit.
  - unfold Init in HInit. rewrite Hinit in HInit. discriminate.
  - destruct (Init_trace_shape d args w Hinit) as (seg & _ & _ & _ & Hshape).
    rewrite HInit in Hshape. cbn [fst] in Hshape.
    destruct Hshape as [[_ [e He]] | (pre & ptrs & argv & res & post & _ & _ & _ & _
                                      & _ & _ & _ & Hres)]; [discriminate |].
    unfold Init_verdict in Hres. destruct res as [e | r0]; [discriminate |].
    destruct (negb (int32 r0 =? 0)); [discriminate |]. now inversion Hres.
Qed.

(** A module without the optional exports still gives a session, and the
    lack shows only when the operation is called: on the session [NewDash]
    returned, once initialized, an operation whose export the module does
    not have fails with its "not available" error, makes no call (the name
    is not even marshalled) and leaves the world untouched. *)
Theorem optional_exports_tolerated (d d' : Dash) (args : list gostring) (w w' : World) :
  fst (fst NewDash) = Some d ->
  Init d args w = ((None, d'), w') ->
  (ExportedFunction "dash_get_exitstatus" = false ->
   forall w2 : World,
     GetExitStatus d' w2 = ((-1, Some "dash_get_exitstatus not available"%string), w2)) /\
  (ExportedFunction "dash_getvar" = false ->
   forall (fuel : nat) (name : gostring) (w2 : World),
     GetVar fuel d' name w2 = (Some ([], Some "dash_getvar not available"%string), w2)) /\
  (ExportedFunction "dash_setvar" = false ->
   forall (name value : gostring) (w2 : World),
     SetVar d' name value w2 = (Some "dash_setvar not available"%string, w2)).
Proof.
  intros Hnew HInit.
  apply Init_ok_session in HInit. subst d'.
  destruct NewDash_cases as [[e Heq] | [(e & w0 & Heq & _) | (d0 & w0 & Heq & _ & _ & Hd)]];
    rewrite Heq in Hnew; cbn [fst] in Hnew; try discriminate.
  inversion Hnew; subst d0. subst d.
  unfold GetExitStatus, GetVar, SetVar, newDash, set_initialized.
  cbn [initialized dashGetExitStatus dashGetVar dashSetVar negb ExportName].
  repeat split; intros ->; reflexivity.
Qed.

End CommandLineProofs.

(** * More statements at work on the small engine *)

(** Three steps of a guest, one of them a capture: the table grows by one. *)
Lemma guest_run_keeps_handles_witness :
  exists new,
    checkpoints (state (guest_run DemoGuest.steps (store (Demo.world 8 0 [])))) = [] ++ new /\
    List.length new = 1%nat.
Proof.
  destruct (guest_run_keeps_handles (E := Demo.engine) DemoGuest.steps
              (store (Demo.world 8 0 []))) as (new & Htab & Hlen & _).
  exists new. split; [exact Htab | exact Hlen].
Defined.

(** Stack pointer 8, heap base 16: the capture stores the 8 bytes between. *)
Lemma setjmpHost_captures_shadow_stack_witness :
  exists cp,
    nth_error (checkpoints (state (fst (setjmpHost 0 (store (Demo.world 8 0 []))))))
      0 = Some cp /\
    Memory.Read (memory (inst (store (Demo.world 8 0 [])))) (stackPointer cp)
      (uint32 16 - stackPointer cp) = Some (cstack cp).
Proof.
  destruct (setjmpHost_captures_shadow_stack (E := Demo.engine) 0 (store (Demo.world 8 0 [])))
    as (cp & Hnth & _ & Hread & _).
  - vm_compute. reflexivity.
  - vm_compute. discriminate.
  - exists cp. split; [exact Hnth | exact Hread].
Defined.

(** A restore right after a capture: the stack pointer is 8 again. *)
Lemma longjmpHost_restores_witness :
  stack_pointer
    (inst (fst (longjmpHost 0 0 (fst (setjmpHost 0 (store (Demo.world 8 0 [])))))))
  = 8.
Proof.
  apply (longjmpHost_restores 0 0 (fst (setjmpHost 0 (store (Demo.world 8 0 []))))
           {| snapshot := 64%nat; stackPointer := 8; cstack := repeat Byte.x07 8 |}).
  - reflexivity.
  - cbn. lia.
Defined.

(** The guest overwrites its stack and moves the stack pointer between the
    capture and the restore: both are put back. *)
Lemma capture_restore_roundtrip_witness :
  stack_pointer
    (inst (fst (longjmpHost 0 0
                  (guest_run DemoGuest.steps
                     (fst (setjmpHost 0 (store (Demo.world 8 0 []))))))))
  = uint32 8 /\
  Memory.Read
    (memory (inst (fst (longjmpHost 0 0
                          (guest_run DemoGuest.steps
                             (fst (setjmpHost 0 (store (Demo.world 8 0 []))))))))) 
    (uint32 8) (uint32 16 - uint32 8)
  = Memory.Read (memory (inst (store (Demo.world 8 0 [])))) (uint32 8) (uint32 16 - uint32 8).
Proof.
  destruct (capture_restore_roundtrip (E := Demo.engine) 0 0 DemoGuest.steps
              (store (Demo.world 8 0 []))) as (_ & Hsp & Hmem).
  - vm_compute. reflexivity.
  - vm_compute. discriminate.
  - vm_compute. reflexivity.
  - vm_compute. discriminate.
  - split; [exact Hsp | exact Hmem].
Defined.

(** The jump buffer at address 8 is in the shadow stack [8, 16): after the
    restore it holds what it held before the capture. *)
Lemma restore_overwrites_jump_buffer_witness :
  Memory.Read
    (memory (inst (fst (longjmpHost 8 0
                          (guest_run [] (fst (setjmpHost 8 (store (Demo.world 8 0 []))))))))) 
    8 8
  = Memory.Read (memory (inst (store (Demo.world 8 0 [])))) 8 8.
Proof.
  apply (restore_overwrites_jump_buffer_in_shadow_stack (E := Demo.engine) 8 0 []
           (store (Demo.world 8 0 []))).
  - vm_compute. discriminate.
  - vm_compute. discriminate.
  - vm_compute. discriminate.
  - vm_compute. reflexivity.
  - vm_compute. discriminate.
Defined.

(** A string that runs to the end of memory without a zero byte. *)
Lemma readCString_spec_witness :
  readCString 3 [Byte.x61; Byte.x62] 0 = Some [Byte.x61; Byte.x62] /\
  readCString 1 [Byte.x61; Byte.x62] 2 = Some [].
Proof.
  split.
  - destruct (readCString_spec 3 [Byte.x61; Byte.x62] 0) as [Hres _].
    + vm_compute. reflexivity.
    + lia.
    + vm_compute. lia.
    + exact Hres.
  - destruct (readCString_spec 1 [Byte.x61; Byte.x62] 2) as [_ Hout].
    + vm_compute. reflexivity.
    + lia.
    + vm_compute. lia.
    + apply Hout. vm_compute. discriminate.
Defined.

Lemma readCString_no_nul_witness :
  ~ In Byte.x00 [Byte.x61; Byte.x62].
Proof.
  apply (readCString_no_nul 3 [Byte.x61; Byte.x62; Byte.x00; Byte.x63] 0).
  reflexivity.
Defined.

(** "h", a zero byte, "i": stored whole, read back as "h". *)
Lemma readCString_allocString_truncates_witness :
  readCString 2
    (memory (inst (store (snd (allocString [Byte.x68; Byte.x00; Byte.x69]
                                 (Demo.world 8 0 []))))))
    16 = Some [Byte.x68].
Proof.
  apply (readCString_allocString_truncates (E := Demo.engine)
           [Byte.x68; Byte.x00; Byte.x69] (Demo.world 8 0 [])).
  - reflexivity.
  - unfold wasm32. vm_compute. discriminate.
  - cbn. lia.
Defined.

Lemma allocString_frame_witness :
  Memory.Size (memory (inst (store (snd (allocString Demo.hello (Demo.world 8 0 []))))))
  = Memory.Size
      (memory (inst (fst (guest_call ExportMalloc [uint64 (len Demo.hello + 1)]
                            (store (Demo.world 8 0 [])))))).
Proof.
  apply (allocString_frame (E := Demo.engine) Demo.hello (Demo.world 8 0 [])
           (snd (allocString Demo.hello (Demo.world 8 0 []))) 16).
  reflexivity.
Defined.

(** A string of 50 bytes does not fit: the allocator answers null. *)
Lemma allocString_failure_releases_witness :
  fst (fst (allocString (repeat Byte.x01 50) (Demo.world 8 0 []))) = 0.
Proof.
  apply (allocString_failure_releases (E := Demo.engine) (repeat Byte.x01 50)
           (Demo.world 8 0 [])
           (snd (allocString (repeat Byte.x01 50) (Demo.world 8 0 [])))
           (fst (fst (allocString (repeat Byte.x01 50) (Demo.world 8 0 []))))
           "malloc returned null"%string).
  reflexivity.
Defined.

Lemma freePtrs_skips_null_witness :
  exists seg,
    trace (snd (freePtrs [16; 0; 20] (Demo.world 8 0 []))) = [] ++ seg /\
    freed seg = [16; 20].
Proof.
  destruct (freePtrs_skips_null (E := Demo.engine) [16; 0; 20] (Demo.world 8 0 []))
    as (seg & Htr & Hfr & _).
  - repeat constructor; lia.
  - exists seg. split; [exact Htr | exact Hfr].
Defined.

(** The variable lookup answers address 8, where "bar" is stored. *)
Lemma GetVar_reads_value_witness :
  fst (GetVar 4 DemoVar.session Demo.hello DemoVar.world) = Some (DemoVar.bar, None).
Proof.
  rewrite (GetVar_reads_value (E := Demo.engine) 4 DemoVar.session Demo.hello DemoVar.world
             (snd (allocString Demo.hello DemoVar.world)) 16 8
             (store (snd (allocString Demo.hello DemoVar.world)))).
  - vm_compute. reflexivity.
  - reflexivity.
  - reflexivity.
  - reflexivity.
  - reflexivity.
  - vm_compute. discriminate.
  - vm_compute. reflexivity.
  - vm_compute. lia.
Defined.

(** Two pointers written at address 24. *)
Lemma Init_writeArgv_layout_witness :
  Memory.Read
    (memory (inst (store (snd (Init_writeArgv 24 0 [16; 19] (Demo.world 8 0 []))))))
    (24 + 4 * Z.of_nat 1) 4
  = Some (le_split 4 19).
Proof.
  destruct (Init_writeArgv_layout 24 [16; 19] (Demo.world 8 0 []))
    as (_ & _ & Hread & _).
  - lia.
  - vm_compute. discriminate.
  - unfold wasm32. vm_compute. discriminate.
  - apply (Hread 1%nat 19). reflexivity.
Defined.

Lemma Init_success_opens_session_witness :
  Init (set_initialized Demo.fresh true) [] (Demo.world 8 0 [])
  = ((Some "dash already initialized"%string, set_initialized Demo.fresh true),
     Demo.world 8 0 []).
Proof.
  destruct (Init_success_opens_session (E := Demo.engine) Demo.fresh
              (set_initialized Demo.fresh true) [Demo.hello] (Demo.world 8 0 [])
              (snd (Init Demo.fresh [Demo.hello] (Demo.world 8 0 []))))
    as (_ & Hagain & _).
  - reflexivity.
  - apply Hagain.
Defined.

(** A module without [free] and [dash_eval]: the first one missing is
    reported. *)
Lemma newDashFromCompiled_first_missing_witness :
  fst (newDashFromCompiled
         (E := Demo.engine)
         (R := DemoRuntime.runtime DemoRuntime.some_exports DemoRuntime.memory0)
         {| checkpoints := [] |})
  = (None, Some "missing export: free"%string).
Proof.
  apply (newDashFromCompiled_first_missing
           (E := Demo.engine)
           (R := DemoRuntime.runtime DemoRuntime.some_exports DemoRuntime.memory0)
           {| checkpoints := [] |} (store DemoRuntime.world0)).
  reflexivity.
Defined.

(** A module with the required exports only: a session, not initialized. *)
Lemma NewDash_outcome_witness :
  initialized (newDash false false false) = false /\
  exists w,
    snd (NewDash (E := Demo.engine)
           (R := DemoRuntime.runtime DemoRuntime.required_only DemoRuntime.memory0))
      = Some w /\ trace w = [].
Proof.
  destruct (proj1 (NewDash_outcome
                     (E := Demo.engine)
                     (R := DemoRuntime.runtime DemoRuntime.required_only DemoRuntime.memory0))
              (newDash false false false) eq_refl)
    as (_ & Hinit & _ & Hw & _).
  split; [exact Hinit | exact Hw].
Defined.

(** On that session the variable lookup is not available. *)
Lemma optional_exports_tolerated_witness :
  GetVar 0 (set_initialized (newDash false false false) true) Demo.hello DemoRuntime.world0
  = (Some ([], Some "dash_getvar not available"%string), DemoRuntime.world0).
Proof.
  destruct (optional_exports_tolerated
              (E := Demo.engine)
              (R := DemoRuntime.runtime DemoRuntime.required_only DemoRuntime.memory0)
              (newDash false false false) (set_initialized (newDash false false false) true)
              [] DemoRuntime.world0
              (snd (Init (newDash false false false) [] DemoRuntime.world0)))
    as (_ & Hgetvar & _).
  - reflexivity.
  - reflexivity.
  - apply Hgetvar. reflexivity.
Defined.

(** The flag -c alone: the file named "-c" is looked for. *)
Lemma main_argument_edges_witness :
  fst (main (E := Demo.engine)
         (R := DemoRuntime.runtime DemoRuntime.all_exports DemoRuntime.memory0)
         [Demo.hello; DemoRuntime.dash_c] DemoRuntime.no_file [])
  = (LogFatal "failed to read -c: no such file", []).
Proof.
  destruct (main_argument_edges
              (E := Demo.engine)
              (R := DemoRuntime.runtime DemoRuntime.all_exports DemoRuntime.memory0)
              Demo.hello DemoRuntime.dash_c DemoRuntime.no_file DemoRuntime.no_file []
              Demo.fresh (set_initialized Demo.fresh true) DemoRuntime.world0
              (snd (Init Demo.fresh [] DemoRuntime.world0))) as [Hc _].
  - reflexivity.
  - reflexivity.
  - rewrite Hc by reflexivity. reflexivity.
Defined.

(** Two commands, an empty line, an error in between, then "exit". *)
Lemma runREPL_evaluates_commands_witness :
  snd (runREPL DemoVar.session
         [Demo.hello; []; DemoVar.bar; [Byte.x65; Byte.x78; Byte.x69; Byte.x74]; Demo.hello]
         DemoVar.world)
  = snd (runREPL DemoVar.session
           [Demo.hello; []; DemoVar.bar; [Byte.x65; Byte.x78; Byte.x69; Byte.x74]]
           DemoVar.world).
Proof.
  apply (proj2 (runREPL_evaluates_commands (E := Demo.engine) DemoVar.session
                  [Demo.hello; []; DemoVar.bar; [Byte.x65; Byte.x78; Byte.x69; Byte.x74];
                   Demo.hello]
                  DemoVar.world)
           [Demo.hello; []; DemoVar.bar] [Byte.x65; Byte.x78; Byte.x69; Byte.x74]
           [Demo.hello]).
  - reflexivity.
  - reflexivity.
Defined.

Lemma Eval_releases_witness :
  exists seg,
    trace (snd (Eval DemoVar.session Demo.hello DemoVar.world)) = [] ++ seg /\
    freed seg = allocated seg.
Proof.
  destruct (Eval_releases (E := Demo.engine) DemoVar.session Demo.hello DemoVar.world)
    as (seg & Htr & Hbal & _).
  exists seg. split; [exact Htr | exact Hbal].
Defined.

(** Before [Init] the status is -1. *)
Lemma Eval_status_witness :
  fst (fst (Eval Demo.fresh Demo.hello (Demo.world 8 0 []))) = -1.
Proof.
  apply (proj1 (proj2 (Eval_status (E := Demo.engine) Demo.fresh Demo.hello
                         (Demo.world 8 0 [])))).
  discriminate.
Defined.

Lemma GetVar_releases_witness :
  exists seg,
    trace (snd (GetVar 4 DemoVar.session Demo.hello DemoVar.world)) = [] ++ seg /\
    freed seg = allocated seg.
Proof.
  destruct (GetVar_releases (E := Demo.engine) 4 DemoVar.session Demo.hello DemoVar.world)
    as (seg & Htr & Hbal & _).
  exists seg. split; [exact Htr | exact Hbal].
Defined.

Lemma SetVar_releases_witness :
  exists seg,
    trace (snd (SetVar DemoVar.session Demo.hello DemoVar.bar DemoVar.world)) = [] ++ seg /\
    Permutation (freed seg) (allocated seg).
Proof.
  destruct (SetVar_releases (E := Demo.engine) DemoVar.session Demo.hello DemoVar.bar
              DemoVar.world) as (seg & Htr & Hperm & _).
  exists seg. split; [exact Htr | exact Hperm].
Defined.

Lemma GetExitStatus_calls_witness :
  fst (fst (GetExitStatus Demo.fresh (Demo.world 8 0 []))) = -1.
Proof.
  apply (proj1 (proj2 (GetExitStatus_calls (E := Demo.engine) Demo.fresh
                         (Demo.world 8 0 [])))).
  discriminate.
Defined.

Lemma Close_ends_session_witness :
  initialized (snd (fst (Close DemoVar.session DemoVar.world))) = false.
Proof.
  apply (proj1 (Close_ends_session (E := Demo.engine) DemoVar.session DemoVar.world)).
Defined.

Lemma runREPL_releases_witness :
  exists seg,
    trace (snd (runREPL DemoVar.session [Demo.hello; DemoVar.bar] DemoVar.world))
      = [] ++ seg /\
    freed seg = allocated seg.
Proof.
  destruct (runREPL_releases (E := Demo.engine) DemoVar.session [Demo.hello; DemoVar.bar]
              DemoVar.world) as (seg & Htr & Hbal & _).
  exists seg. split; [exact Htr | exact Hbal].
Defined.

(** With no argument and an empty standard input [main] returns, and the
    shell has been torn down. *)
Lemma main_teardown_iff_return_witness :
  exists w,
    snd (main (E := Demo.engine)
           (R := DemoRuntime.runtime DemoRuntime.all_exports DemoRuntime.memory0)
           [Demo.hello] DemoRuntime.no_file []) = Some w /\
    existsb is_destroy (trace w) = true.
Proof.
  destruct (main_teardown_iff_return
              (E := Demo.engine)
              (R := DemoRuntime.runtime DemoRuntime.all_exports DemoRuntime.memory0)
              [Demo.hello] DemoRuntime.no_file []) as [_ Hiff].
  vm_compute in Hiff.
  eexists. split; [vm_compute; reflexivity |].
  vm_compute. apply Hiff. reflexivity.
Defined.

(** * More sample runs *)

(** [GetVar] on the small shell: the name is allocated, looked up and
    released. *)
Example GetVar_run :
  GetVar 4 DemoVar.session Demo.hello DemoVar.world
  = (Some (DemoVar.bar, None),
     {| store := store (snd (GetVar 4 DemoVar.session Demo.hello DemoVar.world));
        trace := [EvCall ExportMalloc [3] (CallOk 16);
                  EvCall ExportDashGetVar [16] (CallOk 8);
                  EvCall ExportFree [16] (CallOk 0)] |}).
Proof. reflexivity. Qed.

(** A REPL session of three lines. *)
Example runREPL_run :
  fst (runREPL DemoVar.session
         [Demo.hello; []; [Byte.x71; Byte.x75; Byte.x69; Byte.x74]; Demo.hello]
         DemoVar.world)
    = [banner; "$ "; "$ "; "$ "]%string /\
  trace (snd (runREPL DemoVar.session
                [Demo.hello; []; [Byte.x71; Byte.x75; Byte.x69; Byte.x74]; Demo.hello]
                DemoVar.world))
    = [EvCall ExportMalloc [3] (CallOk 16);
       EvCall ExportDashEval [16; 2] (CallOk 0);
       EvCall ExportFree [16] (CallOk 0)].
Proof. split; reflexivity. Qed.

(** [main] in command mode: exit with the status, the shell not torn
    down. *)
Example main_command_mode :
  fst (main (E := Demo.engine)
         (R := DemoRuntime.runtime DemoRuntime.all_exports DemoRuntime.memory0)
         [Demo.hello; DemoRuntime.dash_c; Demo.hello] DemoRuntime.no_file [])
    = (OsExit 0, []) /\
  option_map (@trace nat Demo.guest_state)
    (snd (main (E := Demo.engine)
            (R := DemoRuntime.runtime DemoRuntime.all_exports DemoRuntime.memory0)
            [Demo.hello; DemoRuntime.dash_c; Demo.hello] DemoRuntime.no_file []))
    = Some [EvCall ExportMalloc [5] (CallOk 16);
            EvCall ExportMalloc [4] (CallOk 21);
            EvCall ExportDashInit [1; 21] (CallOk 0);
            EvCall ExportFree [21] (CallOk 0);
            EvCall ExportFree [16] (CallOk 0);
            EvCall ExportMalloc [3] (CallOk 25);
            EvCall ExportDashEval [25; 2] (CallOk 0);
            EvCall ExportFree [25] (CallOk 0)].
Proof. split; reflexivity. Qed.
